(** * climate.c: per-state aggregation of NOAA climate observations

    A shallow embedding of [src/climate.c].  The program reads tab-delimited
    observation files line by line, decodes every line into a
    [struct climate_info] and folds it into a table of at most [NUM_STATES]
    per-state entries, which [print_report] finally walks in table order.

    Modelling conventions.
    - [double] and [long double] values are exact rationals ([Q]): finite
      values, arithmetic without rounding.  NaN and infinities are outside
      the model.
    - [unsigned long], [long int] and [int] are [Z] with the wrap-around of
      their width written out (LP64: 64, 64 and 32 bits).  Signed overflow
      and the conversion of an out-of-range floating value, which C leaves
      undefined, wrap around as well.
    - The C library's [atof] is a parameter of the development; a decimal
      reader [Libc.atof_decimal] instantiates it in the examples.
    - An indeterminate [char*] (a slot of [tokenList] the tokenizer never
      wrote) is [None]; reading through it is undefined behaviour, the
      outcome [UB].
    - [state->code] is the first two bytes of the first token; the byte
      after them is taken to be NUL, as it is in fresh zero-filled heap
      memory. *)

From Stdlib Require Import ZArith QArith Lqa List Permutation String Ascii Bool Lia.
Import ListNotations.

Local Open Scope string_scope.
Local Open Scope list_scope.
Local Open Scope Z_scope.

(** ** Outcomes *)

Inductive result (A : Type) : Type :=
| Ok (a : A)
| UB.
Arguments Ok {A} a.
Arguments UB {A}.

Definition bind {A B : Type} (m : result A) (k : A -> result B) : result B :=
  match m with
  | Ok a => k a
  | UB => UB
  end.

Notation "x <- m ;; k" := (bind m (fun x => k))
  (at level 61, m at next level, right associativity).

(** ** Machine integers *)

Definition wrap_unsigned (w : Z) (z : Z) : Z := z mod 2 ^ w.

Definition wrap_signed (w : Z) (z : Z) : Z :=
  (z + 2 ^ (w - 1)) mod 2 ^ w - 2 ^ (w - 1).

(** Conversion of a floating value to an integer type discards the
    fractional part (truncation toward zero). *)
Definition Qtrunc (q : Q) : Z := Z.quot (Qnum q) (Zpos (Qden q)).

Definition to_long (q : Q) : Z := wrap_signed 64 (Qtrunc q).
Definition to_int (q : Q) : Z := wrap_signed 32 (Qtrunc q).

(** ** The C library functions the program calls *)

Module Libc.

Definition NUL : ascii := "000"%char.
Definition TAB : ascii := "009"%char.
Definition LF : ascii := "010"%char.

(** The bytes of a buffer up to its first NUL. *)
Fixpoint cstr (s : string) : string :=
  match s with
  | EmptyString => EmptyString
  | String c s' => if Ascii.eqb c NUL then EmptyString else String c (cstr s')
  end.

Fixpoint is_delim (delim : string) (c : ascii) : bool :=
  match delim with
  | EmptyString => false
  | String d delim' => Ascii.eqb c d || is_delim delim' c
  end.

Fixpoint skip_delims (delim s : string) : string :=
  match s with
  | EmptyString => EmptyString
  | String c s' => if is_delim delim c then skip_delims delim s' else s
  end.

(** The token that starts at [s] and the position saved for the next call:
    just after the delimiter that ended the token, or the end of the
    string. *)
Fixpoint span_token (delim s : string) : string * string :=
  match s with
  | EmptyString => (EmptyString, EmptyString)
  | String c s' =>
      if is_delim delim c then (EmptyString, s')
      else let (t, saved) := span_token delim s' in (String c t, saved)
  end.

(** [strtok]: the saved position is passed and returned explicitly.
    [None] is the NULL return. *)
Definition strtok (delim s : string) : option (string * string) :=
  match skip_delims delim s with
  | EmptyString => None
  | s' => Some (span_token delim s')
  end.

(** [fgets (buf, size, file)]: at most [size - 1] bytes, stopping after a
    newline.  The pair is the buffer and the rest of the file. *)
Fixpoint fgets_read (room : nat) (file : string) : string * string :=
  match room, file with
  | S room', String c file' =>
      if Ascii.eqb c LF then (String c EmptyString, file')
      else let (l, rest) := fgets_read room' file' in (String c l, rest)
  | _, _ => (EmptyString, file)
  end.

Definition fgets (size : nat) (file : string) : option (string * string) :=
  match file with
  | EmptyString => None
  | _ => Some (fgets_read (size - 1) file)
  end.

(** [strncpy (dest, src, n)] into a buffer whose byte [n] is NUL. *)
Definition strncpy (src : string) (n : nat) : string := substring 0 n src.

(** A reader for plain decimal literals, [-]digits[.digits]; it stops at
    the first byte that does not fit, as [atof] does. *)
Definition digit (c : ascii) : option Z :=
  let n := Z.of_nat (nat_of_ascii c) in
  if (48 <=? n) && (n <=? 57) then Some (n - 48) else None.

Fixpoint read_frac (s : string) (num : Z) (den : positive) : Q :=
  match s with
  | EmptyString => num # den
  | String c s' =>
      match digit c with
      | Some d => read_frac s' (10 * num + d) (10 * den)
      | None => num # den
      end
  end.

Fixpoint read_int (s : string) (num : Z) : Q :=
  match s with
  | EmptyString => num # 1
  | String c s' =>
      match digit c with
      | Some d => read_int s' (10 * num + d)
      | None => if Ascii.eqb c "."%char then read_frac s' num 1 else num # 1
      end
  end.

Definition atof_decimal (s : string) : Q :=
  match s with
  | String "-"%char s' => Qopp (read_int s' 0)
  | _ => read_int s 0
  end.

End Libc.

(** ** The data model *)

Definition NUM_STATES : nat := 50.

Record climate_info : Type := mk_info {
  code : string;
  num_records : Z;
  temp : Q;
  humidity : Q;
  max_temp : Q;
  max_temp_date : Z;
  min_temp : Q;
  min_temp_date : Z;
  lightning_strikes : Z;
  snow : Z;
  cloud_cover : Q;
  pressure : Q
}.

(** [info *states[NUM_STATES]]: [None] is the NULL pointer. *)
Definition table : Type := list (option climate_info).

Definition init_states : table := repeat None NUM_STATES.

(** ** Tokenizer: lines 137-148 of [analyze_file] *)

Definition delims : string := String Libc.TAB (String Libc.LF EmptyString).

(** [char* tokenList[9]], not initialised. *)
Definition tokenList_init : list (option string) := repeat None 9.

Fixpoint store {A : Type} (i : nat) (x : A) (l : list A) : list A :=
  match l, i with
  | [], _ => []
  | _ :: l', O => x :: l'
  | y :: l', S i' => y :: store i' x l'
  end.

(** The [while (token != NULL && index < 9)] loop; [slots] is [9 - index]. *)
Fixpoint tokenize_loop (slots : nat) (token : option (string * string))
    (index : nat) (tokenList : list (option string)) : list (option string) :=
  match slots, token with
  | S slots', Some (tok, saved) =>
      tokenize_loop slots' (Libc.strtok delims saved) (S index)
        (store index (Some tok) tokenList)
  | _, _ => tokenList
  end.

Definition tokenize (line : string) : list (option string) :=
  tokenize_loop 9 (Libc.strtok delims line) 0 tokenList_init.

(** All the tokens [strtok] would deliver on a line, were it called until
    it returns NULL. *)
Fixpoint tokens_from (fuel : nat) (s : string) : list string :=
  match fuel with
  | O => []
  | S fuel' =>
      match Libc.strtok delims s with
      | None => []
      | Some (tok, saved) => tok :: tokens_from fuel' saved
      end
  end.

Definition tokens (line : string) : list string :=
  tokens_from (String.length line) line.

(** ** The aggregation step: lines 167-197 of [analyze_file] *)

(** The body of the [else if] branch: fold [state] into the entry [a]. *)
Definition update (a state : climate_info) : climate_info :=
  let a1 :=
    {| code := code a;
       num_records := wrap_unsigned 64 (num_records a + 1);
       temp := (temp a + temp state)%Q;
       humidity := (humidity a + humidity state)%Q;
       max_temp := max_temp a;
       max_temp_date := max_temp_date a;
       min_temp := min_temp a;
       min_temp_date := min_temp_date a;
       lightning_strikes :=
         wrap_signed 32 (lightning_strikes a + lightning_strikes state);
       snow := wrap_signed 32 (snow a + snow state);
       cloud_cover := (cloud_cover a + cloud_cover state)%Q;
       pressure := (pressure a + pressure state)%Q |} in
  let a2 :=
    if Qle_bool (max_temp a1) (temp state) then
      {| code := code a1; num_records := num_records a1; temp := temp a1;
         humidity := humidity a1;
         max_temp := temp state; max_temp_date := max_temp_date state;
         min_temp := min_temp a1; min_temp_date := min_temp_date a1;
         lightning_strikes := lightning_strikes a1; snow := snow a1;
         cloud_cover := cloud_cover a1; pressure := pressure a1 |}
    else a1 in
  if Qle_bool (temp state) (min_temp a2) then
    {| code := code a2; num_records := num_records a2; temp := temp a2;
       humidity := humidity a2;
       max_temp := max_temp a2; max_temp_date := max_temp_date a2;
       min_temp := temp state; min_temp_date := min_temp_date state;
       lightning_strikes := lightning_strikes a2; snow := snow a2;
       cloud_cover := cloud_cover a2; pressure := pressure a2 |}
  else a2.

(** The [for (i = 0; i < num_states; i++)] loop over the table; the list
    is [states[i..num_states-1]].  Falling off the end leaves the table as
    it is. *)
Fixpoint consume (states : table) (state : climate_info) : table :=
  match states with
  | [] => []
  | None :: rest => Some state :: rest
  | Some a :: rest =>
      if String.eqb (code a) (code state) then Some (update a state) :: rest
      else Some a :: consume rest state
  end.

Definition consume_all (states : table) (records : list climate_info) : table :=
  fold_left consume records states.

(** The non-NULL entries in index order, as both loops of [print_report]
    visit them. *)
Fixpoint entries (states : table) : list climate_info :=
  match states with
  | [] => []
  | None :: rest => entries rest
  | Some a :: rest => a :: entries rest
  end.

Definition codes (states : table) : list string := map code (entries states).

(** ** The report: [print_report], before the values are formatted *)

Record state_report : Type := mk_report {
  r_code : string;
  r_num_records : Z;
  r_avg_humidity : Q;
  r_avg_temp : Q;
  r_max_temp : Q;
  r_max_temp_date : Z;
  r_min_temp : Q;
  r_min_temp_date : Z;
  r_lightning_strikes : Z;
  r_snow : Z;
  r_avg_cloud_cover : Q
}.

Definition report_block (info : climate_info) : state_report :=
  {| r_code := code info;
     r_num_records := num_records info;
     r_avg_humidity := (humidity info / inject_Z (num_records info))%Q;
     r_avg_temp := (temp info / inject_Z (num_records info))%Q;
     r_max_temp := max_temp info;
     r_max_temp_date := max_temp_date info;
     r_min_temp := min_temp info;
     r_min_temp_date := min_temp_date info;
     r_lightning_strikes := lightning_strikes info;
     r_snow := snow info;
     r_avg_cloud_cover := (cloud_cover info / inject_Z (num_records info))%Q |}.

(** The "States found" line and the per-state blocks. *)
Definition print_report (states : table) : list string * list state_report :=
  (map code (entries states), map report_block (entries states)).

(** ** Decoding and the file loop, over the C library's [atof] *)

Section Analyze.

Variable atof : string -> Q.

Definition read_token (tokenList : list (option string)) (i : nat)
  : result string :=
  match nth i tokenList None with
  | Some tok => Ok tok
  | None => UB
  end.

(** Lines 150-163: the freshly allocated [state]. *)
Definition decode (tokenList : list (option string)) : result climate_info :=
  t0 <- read_token tokenList 0 ;;
  t1 <- read_token tokenList 1 ;;
  t3 <- read_token tokenList 3 ;;
  t4 <- read_token tokenList 4 ;;
  t5 <- read_token tokenList 5 ;;
  t6 <- read_token tokenList 6 ;;
  t7 <- read_token tokenList 7 ;;
  t8 <- read_token tokenList 8 ;;
  Ok {| code := Libc.strncpy t0 2;
        min_temp_date := to_long (atof t1 / 1000)%Q;
        max_temp_date := to_long (atof t1 / 1000)%Q;
        humidity := atof t3;
        snow := to_int (atof t4);
        cloud_cover := atof t5;
        lightning_strikes := to_int (atof t6);
        pressure := atof t7;
        temp := (atof t8 * 9 / 5 - 459.67)%Q;
        max_temp := (atof t8 * 9 / 5 - 459.67)%Q;
        min_temp := (atof t8 * 9 / 5 - 459.67)%Q;
        num_records := 1 |}.

(** One iteration of the [while (fgets ...)] loop. *)
Definition analyze_line (states : table) (line : string) : result table :=
  state <- decode (tokenize line) ;;
  Ok (consume states state).

Definition line_sz : nat := 100.

Fixpoint analyze_file_loop (fuel : nat) (file : string) (states : table)
  : result table :=
  match fuel with
  | O => Ok states
  | S fuel' =>
      match Libc.fgets line_sz file with
      | None => Ok states
      | Some (line, file') =>
          states' <- analyze_line states (Libc.cstr line) ;;
          analyze_file_loop fuel' file' states'
      end
  end.

(** Every [fgets] on a file that is not exhausted takes at least one byte,
    so the length of the file bounds the number of iterations. *)
Definition analyze_file (file : string) (states : table) : result table :=
  analyze_file_loop (String.length file) file states.

(** The loop of [main] over [argv[1..]].  An argument is given by what
    [fopen] makes of it: the contents of the file, or [None] when the file
    cannot be opened, on which [main] returns at once.  The result is the
    table, or [None] for [EXIT_FAILURE]. *)
Fixpoint main_loop (args : list (option string)) (states : table)
  : result (option table) :=
  match args with
  | [] => Ok (Some states)
  | None :: _ => Ok None
  | Some file :: args' =>
      states' <- analyze_file file states ;;
      main_loop args' states'
  end.

(** [main]: the report it prints, or [None] when it returns [EXIT_FAILURE]
    without one (no argument, or a file that cannot be opened). *)
Definition main (args : list (option string))
  : result (option (list string * list state_report)) :=
  match args with
  | [] => Ok None
  | _ :: _ =>
      states <- main_loop args init_states ;;
      Ok (option_map print_report states)
  end.

End Analyze.

Definition tsv (fields : list string) : string :=
  (String.concat (String Libc.TAB EmptyString) fields
   ++ String Libc.LF EmptyString)%string.

(** ** Specification-level vocabulary *)

(** A record as [decode] leaves it: the three temperature fields agree, the
    two dates agree, and it counts for one. *)
Definition fresh_record (r : climate_info) : Prop :=
  max_temp r = temp r /\ min_temp r = temp r /\
  max_temp_date r = min_temp_date r /\ num_records r = 1.

Definition same_code (c : string) (r : climate_info) : bool :=
  String.eqb (code r) c.

(** The records of one state code, in the order they were consumed. *)
Definition records_of (c : string) (rs : list climate_info)
  : list climate_info :=
  filter (same_code c) rs.

(** The entry that a non-empty run of records of one code builds up: the
    first record, with the later ones folded in. *)
Definition accumulate (rs : list climate_info) : option climate_info :=
  match rs with
  | [] => None
  | r :: rs' => Some (fold_left update rs' r)
  end.

(** The distinct codes of a sequence, each at the place of its first
    occurrence. *)
Definition see (seen : list string) (c : string) : list string :=
  if existsb (String.eqb c) seen then seen else seen ++ [c].

Definition first_seen (cs : list string) : list string :=
  fold_left see cs [].

(** The table that [n] slots hold after [rs]: one entry per code among the
    first [n] distinct ones, then NULLs. *)
Definition summary (n : nat) (rs : list climate_info) : table :=
  map (fun c => accumulate (records_of c rs))
      (firstn n (first_seen (map code rs))).

(** Folding [r] into a family of entries indexed by code changes the
    entry of [r]'s code and no other. *)
Definition fold_at (f : string -> option climate_info) (r : climate_info)
    (c : string) : option climate_info :=
  if String.eqb c (code r) then option_map (fun a => update a r) (f c)
  else f c.

(** [x] holds the highest temperature of the run [pre ++ x :: post] and is
    the last record to reach it. *)
Definition last_maximum (l pre : list climate_info) (x : climate_info)
    (post : list climate_info) : Prop :=
  l = pre ++ x :: post /\
  Forall (fun y => (temp y <= temp x)%Q) pre /\
  Forall (fun y => (temp y < temp x)%Q) post.

(** [x] holds the lowest temperature of the run and is the last record to
    reach it. *)
Definition last_minimum (l pre : list climate_info) (x : climate_info)
    (post : list climate_info) : Prop :=
  l = pre ++ x :: post /\
  Forall (fun y => (temp x <= temp y)%Q) pre /\
  Forall (fun y => (temp x < temp y)%Q) post.

(** The buffers that the [fgets] loop of [analyze_file] hands to the
    tokenizer, each as the C string it holds. *)
Fixpoint file_lines_from (fuel : nat) (file : string) : list string :=
  match fuel with
  | O => []
  | S fuel' =>
      match Libc.fgets line_sz file with
      | None => []
      | Some (line, file') => Libc.cstr line :: file_lines_from fuel' file'
      end
  end.

Definition file_lines (file : string) : list string :=
  file_lines_from (String.length file) file.

(** The records that a sequence of lines decodes to; undefined as soon as
    one line is. *)
Fixpoint decode_lines (atof : string -> Q) (lines : list string)
  : result (list climate_info) :=
  match lines with
  | [] => Ok []
  | line :: lines' =>
      state <- decode atof (tokenize line) ;;
      states <- decode_lines atof lines' ;;
      Ok (state :: states)
  end.

(** [s] does not contain the byte [b]. *)
Fixpoint no_byte (b : ascii) (s : string) : bool :=
  match s with
  | EmptyString => true
  | String c s' => negb (Ascii.eqb c b) && no_byte b s'
  end.

(** The conversion in the words of the specification. *)
Definition kelvin_to_fahrenheit (k : Q) : Q := (k * 9 / 5 - 459.67)%Q.

(** The running sum of one field over a run of records, added up in the
    order of the run as the code does. *)
Definition total (field : climate_info -> Q) (l : list climate_info) : Q :=
  match l with
  | [] => 0%Q
  | r :: l' => fold_left Qplus (map field l') (field r)
  end.

(** A record or entry with its pressure blanked out. *)
Definition forget_pressure (r : climate_info) : climate_info :=
  {| code := code r; num_records := num_records r; temp := temp r;
     humidity := humidity r;
     max_temp := max_temp r; max_temp_date := max_temp_date r;
     min_temp := min_temp r; min_temp_date := min_temp_date r;
     lightning_strikes := lightning_strikes r; snow := snow r;
     cloud_cover := cloud_cover r; pressure := 0%Q |}.

(** ** Sample inputs *)

Definition blank : climate_info :=
  {| code := ""; num_records := 0; temp := 0%Q; humidity := 0%Q;
     max_temp := 0%Q; max_temp_date := 0; min_temp := 0%Q;
     min_temp_date := 0; lightning_strikes := 0; snow := 0;
     cloud_cover := 0%Q; pressure := 0%Q |}.

Definition sample (line : string) : climate_info :=
  match decode Libc.atof_decimal (tokenize line) with
  | Ok state => state
  | UB => blank
  end.

Definition line_ca_1 : string :=
  tsv ["CA"; "1000000"; "gh1"; "50"; "0"; "10"; "0"; "101325"; "300.0"].
Definition line_ca_2 : string :=
  tsv ["CA"; "2000000"; "gh2"; "60"; "0"; "20"; "1"; "101300"; "300.0"].
Definition line_wa : string :=
  tsv ["WA"; "1435510800000"; "c23nb62w20st"; "61.0"; "1.0"; "54.0"; "0.0";
       "100645.0"; "325.2"].
Definition line_tn : string :=
  tsv ["TN"; "1438599600000"; "dn6m9k3yc80b"; "49.0"; "0.0"; "53.0"; "1.0";
       "99226.0"; "316.7"].
Definition line_short : string := tsv ["CA"; "1428300000000"].
Definition line_long : string :=
  tsv ["CA"; "1428300000000"; "9prcjqk3yc80"; "93.0"; "0.0"; "100.0"; "0.0";
       "95644.0"; "277.58716"; "extra"; "more"].

Definition ca_1 : climate_info := Eval vm_compute in sample line_ca_1.
Definition ca_2 : climate_info := Eval vm_compute in sample line_ca_2.
Definition ca_both : climate_info :=
  Eval vm_compute in hd blank (entries (consume_all init_states [ca_1; ca_2])).

(** Fifty-one two-letter codes, [AA] to [AZ] and [BA] to [BY], one
    observation of each. *)
Definition code_of_nat (i : nat) : string :=
  String (ascii_of_nat (65 + i / 26))
    (String (ascii_of_nat (65 + i mod 26)) EmptyString).

Definition line_of_code (c : string) : string :=
  tsv [c; "1428300000000"; "9prcjqk3yc80"; "93.0"; "0.0"; "100.0"; "0.0";
       "95644.0"; "277.58716"].

Definition fifty_one_codes : list string := map code_of_nat (seq 0 51).

Definition fifty_one_lines : string :=
  String.concat EmptyString (map line_of_code fifty_one_codes).

Definition fifty_records : list climate_info :=
  map (fun c => sample (line_of_code c)) (firstn 50 fifty_one_codes).

Definition by_record : climate_info :=
  Eval vm_compute in sample (line_of_code "BY").

Definition wa_tn_report : list string * list state_report :=
  Eval vm_compute in
    match main Libc.atof_decimal [Some line_wa; Some line_tn] with
    | Ok (Some report) => report
    | _ => ([], [])
    end.

Definition ca_block : state_report :=
  Eval vm_compute in report_block ca_both.

Definition fifty_one_report : list string * list state_report :=
  Eval vm_compute in
    match main Libc.atof_decimal [Some fifty_one_lines] with
    | Ok (Some report) => report
    | _ => ([], [])
    end.

(** ** Vocabulary for the further properties *)

(** A token as [strtok] delivers it: not empty, and free of the two
    delimiters. *)
Definition well_delimited (tok : string) : Prop :=
  tok <> EmptyString /\
  no_byte Libc.TAB tok = true /\ no_byte Libc.LF tok = true.

Definition Zsum (l : list Z) : Z := fold_right Z.add 0 l.

(** The values of the type [int]. *)
Definition in_int (z : Z) : Prop := - 2 ^ 31 <= z < 2 ^ 31.

(** The values of a flag field: absent or present. *)
Definition is_flag (z : Z) : Prop := z = 0 \/ z = 1.

(** The records whose code is one of [cs]. *)
Definition with_code_in (cs : list string) (rs : list climate_info)
  : list climate_info :=
  filter (fun r => existsb (String.eqb (code r)) cs) rs.

(** The entries of a table whose code is not [c]. *)
Definition other_entries (c : string) (states : table) : list climate_info :=
  filter (fun a => negb (same_code c a)) (entries states).

(** Ten fields, the third one empty. *)
Definition line_empty_field : string :=
  tsv ["CA"; "1428300000000"; ""; "93.0"; "0.0"; "100.0"; "0.0"; "95644.0";
       "277.58716"; "999.0"].

Definition empty_field_record : climate_info :=
  Eval vm_compute in sample line_empty_field.

(** Ten fields, none empty, on a line of 117 bytes and its newline. *)
Definition line_over_99 : string :=
  tsv ["CA"; "1428300000000"; "9prcjqk3yc80"; "93.0"; "0.0"; "100.0"; "0.0";
       "95644.0"; "277.58716";
       "01234567890123456789012345678901234567890123456789"].

(** The nine fields of an observation, and what may follow them on the
    line. *)
Definition nine_fields : list string :=
  ["CA"; "1428300000000"; "9prcjqk3yc80"; "93.0"; "0.0"; "100.0"; "0.0";
   "95644.0"; "277.58716"].

Definition beyond_ninth : string :=
  String.concat (String Libc.TAB EmptyString) ["extra"; ""; "more"].

(** A well-formed line of 99 bytes, its newline not counted. *)
Definition line_99 : string :=
  String.concat (String Libc.TAB EmptyString)
    ["CA"; "1428300000000"; "9prcjqk3yc80"; "93.0"; "0.0"; "100.0"; "0.0";
     "95644.0"; "277.58716000000000000000000000000000000000"].

Definition line_ca_3 : string :=
  tsv ["CAL"; "3000000"; "gh3"; "70"; "1"; "30"; "1"; "101200"; "310.0"].

Definition ca_3 : climate_info := Eval vm_compute in sample line_ca_3.
Definition wa_1 : climate_info := Eval vm_compute in sample line_wa.

(** * Properties *)

(** ** Codes in discovery order *)

Lemma existsb_eqb_In (c : string) (l : list string) :
  existsb (String.eqb c) l = true <-> In c l.
Proof.
  rewrite existsb_exists. split.
  - intros [x [Hin Heq]]. apply String.eqb_eq in Heq. now subst.
  - intros Hin. exists c. split; [assumption | apply String.eqb_refl].
Qed.

Lemma first_seen_snoc (l : list string) (c : string) :
  first_seen (l ++ [c]) = see (first_seen l) c.
Proof. unfold first_seen. now rewrite fold_left_app. Qed.

Lemma see_In (seen : list string) (c x : string) :
  In x (see seen c) <-> In x seen \/ x = c.
Proof.
  unfold see. destruct (existsb (String.eqb c) seen) eqn:E.
  - apply existsb_eqb_In in E. split; [now left | intros [H | ->]; assumption].
  - rewrite in_app_iff. simpl. intuition congruence.
Qed.

Lemma first_seen_In (l : list string) (x : string) :
  In x (first_seen l) <-> In x l.
Proof.
  induction l as [| c l IH] using rev_ind.
  - reflexivity.
  - rewrite first_seen_snoc, see_In, IH, in_app_iff. simpl. intuition congruence.
Qed.

Lemma see_NoDup (seen : list string) (c : string) :
  NoDup seen -> NoDup (see seen c).
Proof.
  intros Hnd. unfold see. destruct (existsb (String.eqb c) seen) eqn:E.
  - assumption.
  - apply NoDup_app; [assumption | repeat constructor; intros [] | ].
    intros x Hx [<- | []].
    apply existsb_eqb_In in Hx. congruence.
Qed.

Lemma first_seen_NoDup (l : list string) : NoDup (first_seen l).
Proof.
  induction l as [| c l IH] using rev_ind.
  - constructor.
  - rewrite first_seen_snoc. now apply see_NoDup.
Qed.

Lemma firstn_incl {A : Type} (n : nat) (l : list A) (x : A) :
  In x (firstn n l) -> In x l.
Proof.
  revert n. induction l as [| y l IH]; intros [| n]; simpl; try tauto.
  intros [-> | Hin]; [now left | right; eauto].
Qed.

Lemma NoDup_firstn {A : Type} (n : nat) (l : list A) :
  NoDup l -> NoDup (firstn n l).
Proof.
  revert n. induction l as [| x l IH]; intros [| n] Hnd; simpl; try constructor.
  - inversion Hnd; subst. intros Hin. apply firstn_incl in Hin. contradiction.
  - inversion Hnd; subst. now apply IH.
Qed.

(** ** One entry: what folding records into it does *)

(** The two tests of [update] are independent: neither changes a field
    the other reads. *)
Lemma update_fields (a r : climate_info) :
  update a r =
  {| code := code a;
     num_records := wrap_unsigned 64 (num_records a + 1);
     temp := (temp a + temp r)%Q;
     humidity := (humidity a + humidity r)%Q;
     max_temp := if Qle_bool (max_temp a) (temp r) then temp r else max_temp a;
     max_temp_date :=
       if Qle_bool (max_temp a) (temp r) then max_temp_date r
       else max_temp_date a;
     min_temp := if Qle_bool (temp r) (min_temp a) then temp r else min_temp a;
     min_temp_date :=
       if Qle_bool (temp r) (min_temp a) then min_temp_date r
       else min_temp_date a;
     lightning_strikes :=
       wrap_signed 32 (lightning_strikes a + lightning_strikes r);
     snow := wrap_signed 32 (snow a + snow r);
     cloud_cover := (cloud_cover a + cloud_cover r)%Q;
     pressure := (pressure a + pressure r)%Q |}.
Proof.
  unfold update. cbv zeta. cbn [max_temp].
  destruct (Qle_bool (max_temp a) (temp r)); cbn [min_temp];
    destruct (Qle_bool (temp r) (min_temp a)); reflexivity.
Qed.

Lemma update_code (a r : climate_info) : code (update a r) = code a.
Proof. now rewrite update_fields. Qed.

Lemma fold_update_code (rs : list climate_info) (a : climate_info) :
  code (fold_left update rs a) = code a.
Proof.
  revert a. induction rs as [| r rs IH]; intros a; simpl.
  - reflexivity.
  - now rewrite IH, update_code.
Qed.

Lemma accumulate_snoc (l : list climate_info) (a r : climate_info) :
  accumulate l = Some a -> accumulate (l ++ [r]) = Some (update a r).
Proof.
  destruct l as [| r0 l]; simpl; [discriminate |].
  intros [= <-]. now rewrite fold_left_app.
Qed.

Lemma accumulate_code (l : list climate_info) (c : string) (a : climate_info) :
  Forall (fun r => code r = c) l -> accumulate l = Some a -> code a = c.
Proof.
  destruct l as [| r0 l]; simpl; [discriminate |].
  intros HF [= <-]. rewrite fold_update_code. now inversion HF.
Qed.

Lemma records_of_snoc (c : string) (rs : list climate_info) (r : climate_info) :
  records_of c (rs ++ [r]) =
  records_of c rs ++ (if same_code c r then [r] else []).
Proof. unfold records_of. rewrite filter_app. reflexivity. Qed.

Lemma records_of_code (c : string) (rs : list climate_info) :
  Forall (fun r => code r = c) (records_of c rs).
Proof.
  apply Forall_forall. intros r Hr. apply filter_In in Hr.
  destruct Hr as [_ Hr]. now apply String.eqb_eq in Hr.
Qed.

Lemma records_of_absent (c : string) (rs : list climate_info) :
  ~ In c (map code rs) -> records_of c rs = [].
Proof.
  intros Hn. induction rs as [| r rs IH]; simpl in *; [reflexivity |].
  unfold same_code. destruct (String.eqb_spec (code r) c) as [E | E].
  - exfalso. apply Hn. now left.
  - apply IH. intros H. apply Hn. now right.
Qed.

Lemma records_of_present (c : string) (rs : list climate_info) :
  In c (map code rs) ->
  exists a, accumulate (records_of c rs) = Some a /\ code a = c.
Proof.
  intros Hin. apply in_map_iff in Hin. destruct Hin as [r [Hc Hr]].
  assert (Hin : In r (records_of c rs)).
  { apply filter_In. split; [assumption |].
    unfold same_code. now apply String.eqb_eq. }
  destruct (records_of c rs) as [| r0 l] eqn:E; [contradiction |].
  exists (fold_left update l r0). split; [reflexivity |].
  rewrite fold_update_code.
  pose proof (records_of_code c rs) as HF. rewrite E in HF. now inversion HF.
Qed.

(** ** The scan of the table *)

Lemma consume_length (states : table) (r : climate_info) :
  List.length (consume states r) = List.length states.
Proof.
  induction states as [| [a |] rest IH]; simpl; try reflexivity.
  destruct (String.eqb (code a) (code r)); simpl; congruence.
Qed.

Lemma consume_all_snoc (states : table) (rs : list climate_info)
    (r : climate_info) :
  consume_all states (rs ++ [r]) = consume (consume_all states rs) r.
Proof. unfold consume_all. now rewrite fold_left_app. Qed.

Lemma entries_app (s1 s2 : table) :
  entries (s1 ++ s2) = entries s1 ++ entries s2.
Proof.
  induction s1 as [| [a |] s1 IH]; simpl; [reflexivity | | assumption].
  now rewrite IH.
Qed.

Lemma entries_nulls (k : nat) : entries (repeat None k) = [].
Proof. induction k; simpl; auto. Qed.

Section Scan.

Variable f : string -> option climate_info.
Variable r : climate_info.

Lemma consume_miss (T : list string) (rest : table) :
  (forall c, In c T -> exists a, f c = Some a /\ code a = c) ->
  ~ In (code r) T ->
  consume (map f T ++ rest) r = map f T ++ consume rest r.
Proof.
  induction T as [| c T IH]; intros Hf Hn; simpl; [reflexivity |].
  destruct (Hf c (or_introl eq_refl)) as [a [Ha Hc]]. rewrite Ha.
  destruct (String.eqb_spec (code a) (code r)) as [E | E].
  - exfalso. apply Hn. left. congruence.
  - f_equal. apply IH.
    + intros c' Hc'. apply Hf. now right.
    + intros H. apply Hn. now right.
Qed.

Lemma fold_at_miss (T : list string) :
  ~ In (code r) T -> map (fold_at f r) T = map f T.
Proof.
  intros Hn. apply map_ext_in. intros c Hc. unfold fold_at.
  destruct (String.eqb_spec c (code r)) as [-> | _]; [contradiction | reflexivity].
Qed.

Lemma consume_hit (T : list string) (rest : table) :
  NoDup T ->
  (forall c, In c T -> exists a, f c = Some a /\ code a = c) ->
  In (code r) T ->
  consume (map f T ++ rest) r = map (fold_at f r) T ++ rest.
Proof.
  induction T as [| c T IH]; intros Hnd Hf Hin; simpl; [contradiction |].
  inversion Hnd as [| ? ? Hc HT]; subst.
  destruct (Hf c (or_introl eq_refl)) as [a [Ha Hca]].
  rewrite Ha. unfold fold_at at 1. rewrite Ha. simpl.
  destruct (String.eqb_spec (code a) (code r)) as [E | E].
  - subst c. pose proof E as E2. apply String.eqb_eq in E2. rewrite E2.
    rewrite fold_at_miss; [reflexivity | now rewrite <- E].
  - destruct (String.eqb_spec c (code r)) as [E' | _]; [congruence |].
    f_equal. apply IH; [assumption | |].
    + intros c' Hc'. apply Hf. now right.
    + destruct Hin as [E' | Hin]; [congruence | assumption].
Qed.

End Scan.

(** ** The table after a sequence of records, in closed form *)

Lemma summary_entry (n : nat) (rs : list climate_info) (c : string) :
  In c (firstn n (first_seen (map code rs))) ->
  exists a, accumulate (records_of c rs) = Some a /\ code a = c.
Proof.
  intros H. apply firstn_incl in H. rewrite first_seen_In in H.
  now apply records_of_present.
Qed.

Lemma accumulate_other (rs : list climate_info) (r : climate_info)
    (T : list string) :
  ~ In (code r) T ->
  map (fun c => accumulate (records_of c (rs ++ [r]))) T =
  map (fun c => accumulate (records_of c rs)) T.
Proof.
  intros Hn. apply map_ext_in. intros c Hc. rewrite records_of_snoc.
  unfold same_code. destruct (String.eqb_spec (code r) c) as [E | _].
  - subst c. contradiction.
  - now rewrite app_nil_r.
Qed.

Lemma accumulate_same (n : nat) (rs : list climate_info) (r : climate_info) :
  map (fun c => accumulate (records_of c (rs ++ [r])))
      (firstn n (first_seen (map code rs))) =
  map (fold_at (fun c => accumulate (records_of c rs)) r)
      (firstn n (first_seen (map code rs))).
Proof.
  apply map_ext_in. intros c Hc. unfold fold_at.
  rewrite records_of_snoc. unfold same_code.
  rewrite (String.eqb_sym (code r) c).
  destruct (String.eqb c (code r)).
  - destruct (summary_entry n rs c Hc) as [a [Ha _]].
    rewrite Ha. simpl. now apply accumulate_snoc.
  - now rewrite app_nil_r.
Qed.

Theorem consume_all_summary (n : nat) (rs : list climate_info) :
  consume_all (repeat None n) rs =
  summary n rs ++ repeat None (n - List.length (summary n rs)).
Proof.
  induction rs as [| r rs IH] using rev_ind.
  - unfold summary. simpl. rewrite firstn_nil. simpl. now rewrite Nat.sub_0_r.
  - rewrite consume_all_snoc, IH. unfold summary.
    rewrite map_app. simpl (map code [r]). rewrite first_seen_snoc.
    set (cs := first_seen (map code rs)).
    set (f := fun c => accumulate (records_of c rs)).
    rewrite !length_map.
    destruct (in_dec string_dec (code r) (firstn n cs)) as [Hin | Hn].
    + (* the code is in the table *)
      rewrite consume_hit;
        [ | apply NoDup_firstn, first_seen_NoDup
          | intros c Hc; exact (summary_entry n rs c Hc) | exact Hin ].
      assert (Hsee : see cs (code r) = cs).
      { unfold see. apply firstn_incl in Hin.
        apply existsb_eqb_In in Hin. now rewrite Hin. }
      rewrite Hsee. unfold f, cs.
      now rewrite (accumulate_same n rs r).
    + rewrite consume_miss;
        [ | intros c Hc; exact (summary_entry n rs c Hc) | exact Hn ].
      destruct (Nat.lt_ge_cases (List.length cs) n) as [Hlt | Hge].
      * (* a free slot: the record becomes a new entry *)
        assert (HT : firstn n cs = cs) by (apply firstn_all2; lia).
        rewrite HT in *.
        assert (Hsee : see cs (code r) = cs ++ [code r]).
        { unfold see. destruct (existsb (String.eqb (code r)) cs) eqn:E;
            [ apply existsb_eqb_In in E; contradiction | reflexivity ]. }
        rewrite Hsee.
        rewrite (firstn_all2 (n := n) (cs ++ [code r]))
          by (rewrite length_app; simpl; lia).
        rewrite map_app, accumulate_other by assumption. simpl.
        rewrite records_of_snoc, records_of_absent
          by (intros H; apply Hn; now apply first_seen_In).
        unfold same_code. rewrite String.eqb_refl. simpl.
        rewrite length_app. simpl.
        destruct (n - List.length cs)%nat as [| k] eqn:Ek; [lia |].
        simpl. rewrite <- app_assoc. simpl.
        repeat f_equal. lia.
      * (* the table is full: the record is dropped *)
        assert (HL : List.length (firstn n cs) = n)
          by (rewrite length_firstn; lia).
        assert (HT : firstn n (see cs (code r)) = firstn n cs).
        { unfold see. destruct (existsb (String.eqb (code r)) cs);
            [reflexivity |].
          rewrite firstn_app.
          replace (n - List.length cs)%nat with 0%nat by lia.
          simpl. now rewrite app_nil_r. }
        rewrite HT, HL, Nat.sub_diag. simpl.
        now rewrite accumulate_other by assumption.
Qed.

Lemma entries_indexed (f : string -> option climate_info) (T : list string) :
  (forall c, In c T -> exists a, f c = Some a /\ code a = c) ->
  map code (entries (map f T)) = T /\
  (forall a, In a (entries (map f T)) -> f (code a) = Some a).
Proof.
  induction T as [| c T IH]; intros Hf; simpl.
  - split; [reflexivity | contradiction].
  - destruct (Hf c (or_introl eq_refl)) as [a [Ha Hc]]. rewrite Ha.
    destruct IH as [IH1 IH2]; [intros c' Hc'; apply Hf; now right |].
    simpl. split.
    + now rewrite IH1, Hc.
    + intros a' [<- | Hin]; [now rewrite Hc | now apply IH2].
Qed.

Lemma entries_consume_all (n : nat) (rs : list climate_info) :
  entries (consume_all (repeat None n) rs) = entries (summary n rs).
Proof.
  rewrite consume_all_summary, entries_app, entries_nulls.
  apply app_nil_r.
Qed.

Lemma codes_consume_all (n : nat) (rs : list climate_info) :
  codes (consume_all (repeat None n) rs) =
  firstn n (first_seen (map code rs)).
Proof.
  unfold codes. rewrite entries_consume_all. unfold summary.
  apply entries_indexed. intros c Hc. exact (summary_entry n rs c Hc).
Qed.

(** Every entry of the table is the fold of exactly the records of its
    code. *)
Lemma entry_accumulates (n : nat) (rs : list climate_info) (a : climate_info) :
  In a (entries (consume_all (repeat None n) rs)) ->
  accumulate (records_of (code a) rs) = Some a.
Proof.
  rewrite entries_consume_all. unfold summary. intros Hin.
  apply (proj2 (entries_indexed (fun c => accumulate (records_of c rs)) _
                  (fun c Hc => summary_entry n rs c Hc))) in Hin.
  exact Hin.
Qed.

Lemma entries_length (n : nat) (rs : list climate_info) :
  (List.length (entries (consume_all (repeat None n) rs)) <= n)%nat.
Proof.
  rewrite <- (length_map code). fold (codes (consume_all (repeat None n) rs)).
  rewrite codes_consume_all, length_firstn. lia.
Qed.

(** ** Extrema of one entry *)

Lemma update_max_temp (a r : climate_info) :
  max_temp (update a r) =
  if Qle_bool (max_temp a) (temp r) then temp r else max_temp a.
Proof. now rewrite update_fields. Qed.

Lemma update_max_temp_date (a r : climate_info) :
  max_temp_date (update a r) =
  if Qle_bool (max_temp a) (temp r) then max_temp_date r else max_temp_date a.
Proof. now rewrite update_fields. Qed.

Lemma update_min_temp (a r : climate_info) :
  min_temp (update a r) =
  if Qle_bool (temp r) (min_temp a) then temp r else min_temp a.
Proof. now rewrite update_fields. Qed.

Lemma update_min_temp_date (a r : climate_info) :
  min_temp_date (update a r) =
  if Qle_bool (temp r) (min_temp a) then min_temp_date r else min_temp_date a.
Proof. now rewrite update_fields. Qed.

Lemma accumulate_max (l : list climate_info) (a : climate_info) :
  Forall fresh_record l ->
  accumulate l = Some a ->
  exists pre x post,
    last_maximum l pre x post /\
    max_temp a = temp x /\ max_temp_date a = max_temp_date x.
Proof.
  destruct l as [| r0 l]; [discriminate |].
  intros HF Hacc. inversion HF as [| ? ? [Hmax _] _]; subst. clear HF.
  revert a Hacc. induction l as [| r l IH] using rev_ind; intros a Hacc.
  - simpl in Hacc. injection Hacc as <-.
    exists [], r0, []. repeat split; auto.
  - change (r0 :: l ++ [r]) with ((r0 :: l) ++ [r]) in Hacc.
    destruct (IH _ eq_refl) as (pre & x & post & (Hl & Hpre & Hpost) & Hm & Hd).
    rewrite (accumulate_snoc (r0 :: l) _ r eq_refl) in Hacc.
    injection Hacc as <-.
    rewrite update_max_temp, update_max_temp_date.
    destruct (Qle_bool (max_temp (fold_left update l r0)) (temp r)) eqn:E.
    + apply Qle_bool_iff in E. rewrite Hm in E.
      exists (r0 :: l), r, []. repeat split; auto.
      rewrite Hl. apply Forall_app. split.
      * eapply Forall_impl; [| exact Hpre]. intros y Hy. simpl in Hy.
        eapply Qle_trans; eassumption.
      * constructor; [assumption |].
        eapply Forall_impl; [| exact Hpost]. intros y Hy. simpl in Hy.
        apply Qlt_le_weak. eapply Qlt_le_trans; eassumption.
    + assert (Hlt : (temp r < temp x)%Q).
      { rewrite <- Hm. apply Qnot_le_lt. intros H.
        apply Qle_bool_iff in H. congruence. }
      exists pre, x, (post ++ [r]). repeat split; auto.
      * change (r0 :: l ++ [r]) with ((r0 :: l) ++ [r]).
        rewrite Hl, <- app_assoc. reflexivity.
      * apply Forall_app. split; [assumption | now constructor].
Qed.

Lemma accumulate_min (l : list climate_info) (a : climate_info) :
  Forall fresh_record l ->
  accumulate l = Some a ->
  exists pre x post,
    last_minimum l pre x post /\
    min_temp a = temp x /\ min_temp_date a = min_temp_date x.
Proof.
  destruct l as [| r0 l]; [discriminate |].
  intros HF Hacc. inversion HF as [| ? ? [_ [Hmin _]] _]; subst. clear HF.
  revert a Hacc. induction l as [| r l IH] using rev_ind; intros a Hacc.
  - simpl in Hacc. injection Hacc as <-.
    exists [], r0, []. repeat split; auto.
  - change (r0 :: l ++ [r]) with ((r0 :: l) ++ [r]) in Hacc.
    destruct (IH _ eq_refl) as (pre & x & post & (Hl & Hpre & Hpost) & Hm & Hd).
    rewrite (accumulate_snoc (r0 :: l) _ r eq_refl) in Hacc.
    injection Hacc as <-.
    rewrite update_min_temp, update_min_temp_date.
    destruct (Qle_bool (temp r) (min_temp (fold_left update l r0))) eqn:E.
    + apply Qle_bool_iff in E. rewrite Hm in E.
      exists (r0 :: l), r, []. repeat split; auto.
      rewrite Hl. apply Forall_app. split.
      * eapply Forall_impl; [| exact Hpre]. intros y Hy. simpl in Hy.
        eapply Qle_trans; eassumption.
      * constructor; [exact E |].
        eapply Forall_impl; [| exact Hpost]. intros y Hy. simpl in Hy.
        apply Qlt_le_weak.
        eapply Qle_lt_trans; eassumption.
    + assert (Hlt : (temp x < temp r)%Q).
      { rewrite <- Hm. apply Qnot_le_lt. intros H.
        apply Qle_bool_iff in H. congruence. }
      exists pre, x, (post ++ [r]). repeat split; auto.
      * change (r0 :: l ++ [r]) with ((r0 :: l) ++ [r]).
        rewrite Hl, <- app_assoc. reflexivity.
      * apply Forall_app. split; [assumption | now constructor].
Qed.

Lemma consume_tracked (n : nat) (rs : list climate_info)
    (a state : climate_info) :
  In a (entries (consume_all (repeat None n) rs)) ->
  code state = code a ->
  In (update a state)
     (entries (consume (consume_all (repeat None n) rs) state)).
Proof.
  intros Hin Hcode.
  pose proof (entry_accumulates n rs a Hin) as Hacc.
  assert (Hc : In (code a) (codes (consume_all (repeat None n) rs)))
    by (unfold codes; now apply in_map).
  rewrite codes_consume_all in Hc.
  rewrite <- consume_all_snoc.
  assert (Hc' : In (code a) (codes (consume_all (repeat None n) (rs ++ [state])))).
  { rewrite codes_consume_all, map_app. simpl (map code [state]).
    rewrite first_seen_snoc. unfold see. rewrite Hcode.
    pose proof (firstn_incl _ _ _ Hc) as Hcs.
    apply existsb_eqb_In in Hcs. now rewrite Hcs. }
  unfold codes in Hc'. apply in_map_iff in Hc'.
  destruct Hc' as [a' [Ha' Hin']].
  pose proof (entry_accumulates n _ a' Hin') as Hacc'.
  rewrite Ha', records_of_snoc in Hacc'.
  unfold same_code in Hacc'. rewrite Hcode, String.eqb_refl in Hacc'.
  rewrite (accumulate_snoc _ a state Hacc) in Hacc'.
  injection Hacc' as <-. exact Hin'.
Qed.

(** C1: in the table built from any sequence of decoded records, the
    [max_temp] of an entry is the highest temperature among the records of
    its code and [max_temp_date] is the date of the last record that reached
    it; a further record of that code whose temperature equals the current
    [max_temp] replaces both fields. *)
Theorem max_temp_is_maximum_last_wins :
  forall (rs : list climate_info) (a : climate_info),
    Forall fresh_record rs ->
    In a (entries (consume_all init_states rs)) ->
    (exists pre x post,
        last_maximum (records_of (code a) rs) pre x post /\
        max_temp a = temp x /\ max_temp_date a = max_temp_date x) /\
    (forall state,
        code state = code a -> (temp state == max_temp a)%Q ->
        In (update a state)
           (entries (consume (consume_all init_states rs) state)) /\
        max_temp (update a state) = temp state /\
        max_temp_date (update a state) = max_temp_date state).
Proof.
  intros rs a HF Hin. unfold init_states in *. split.
  - apply accumulate_max.
    + unfold records_of. apply Forall_forall. intros r Hr.
      apply filter_In in Hr. destruct Hr as [Hr _].
      revert r Hr. now apply Forall_forall.
    + now apply entry_accumulates with (n := NUM_STATES).
  - intros state Hcode Htie. split; [now apply consume_tracked |].
    rewrite update_max_temp, update_max_temp_date.
    assert (E : Qle_bool (max_temp a) (temp state) = true).
    { apply Qle_bool_iff. rewrite Htie. apply Qle_refl. }
    now rewrite E.
Qed.

(** C4: the [min_temp] of an entry is the lowest temperature among the
    records of its code and [min_temp_date] is the date of the last record
    that reached it; a further record of that code whose temperature equals
    the current [min_temp] replaces both fields. *)
Theorem min_temp_is_minimum_last_wins :
  forall (rs : list climate_info) (a : climate_info),
    Forall fresh_record rs ->
    In a (entries (consume_all init_states rs)) ->
    (exists pre x post,
        last_minimum (records_of (code a) rs) pre x post /\
        min_temp a = temp x /\ min_temp_date a = min_temp_date x) /\
    (forall state,
        code state = code a -> (temp state == min_temp a)%Q ->
        In (update a state)
           (entries (consume (consume_all init_states rs) state)) /\
        min_temp (update a state) = temp state /\
        min_temp_date (update a state) = min_temp_date state).
Proof.
  intros rs a HF Hin. unfold init_states in *. split.
  - apply accumulate_min.
    + unfold records_of. apply Forall_forall. intros r Hr.
      apply filter_In in Hr. destruct Hr as [Hr _].
      revert r Hr. now apply Forall_forall.
    + now apply entry_accumulates with (n := NUM_STATES).
  - intros state Hcode Htie. split; [now apply consume_tracked |].
    rewrite update_min_temp, update_min_temp_date.
    assert (E : Qle_bool (temp state) (min_temp a) = true).
    { apply Qle_bool_iff. rewrite Htie. apply Qle_refl. }
    now rewrite E.
Qed.

(** ** The tokenizer *)

Lemma skip_delims_length (d s : string) :
  (String.length (Libc.skip_delims d s) <= String.length s)%nat.
Proof.
  induction s as [| c s IH]; simpl; [lia |].
  destruct (Libc.is_delim d c); simpl; lia.
Qed.

Lemma span_token_length (d s t saved : string) :
  Libc.span_token d s = (t, saved) ->
  (String.length saved <= pred (String.length s))%nat.
Proof.
  revert t saved. induction s as [| c s IH]; simpl; intros t saved H.
  - injection H as _ <-. simpl. lia.
  - destruct (Libc.is_delim d c).
    + injection H as _ <-. lia.
    + destruct (Libc.span_token d s) as [t' saved'].
      injection H as _ <-. specialize (IH _ _ eq_refl). lia.
Qed.

Lemma strtok_length (d s tok saved : string) :
  Libc.strtok d s = Some (tok, saved) ->
  (String.length saved < String.length s)%nat.
Proof.
  unfold Libc.strtok. intros H.
  pose proof (skip_delims_length d s) as Hs.
  destruct (Libc.skip_delims d s) as [| c s'] eqn:E; [discriminate |].
  assert (Hp : Libc.span_token d (String c s') = (tok, saved))
    by (injection H as H; exact H).
  apply span_token_length in Hp. simpl in *. lia.
Qed.

Lemma tokens_from_fuel (fuel1 fuel2 : nat) (s : string) :
  (String.length s <= fuel1)%nat -> (String.length s <= fuel2)%nat ->
  tokens_from fuel1 s = tokens_from fuel2 s.
Proof.
  revert fuel2 s. induction fuel1 as [| fuel1 IH]; intros fuel2 s H1 H2.
  - destruct s; [| simpl in H1; lia].
    destruct fuel2; reflexivity.
  - destruct fuel2 as [| fuel2].
    + destruct s; [reflexivity | simpl in H2; lia].
    + simpl. destruct (Libc.strtok delims s) as [[tok saved] |] eqn:E;
        [| reflexivity].
      apply strtok_length in E. f_equal. apply IH; lia.
Qed.

Lemma tokens_step (s : string) :
  tokens s =
  match Libc.strtok delims s with
  | None => []
  | Some (tok, saved) => tok :: tokens saved
  end.
Proof.
  unfold tokens. destruct s as [| c s]; [reflexivity |].
  cbn [String.length tokens_from].
  destruct (Libc.strtok delims (String c s)) as [[tok saved] |] eqn:E;
    [| reflexivity].
  apply strtok_length in E. simpl in E. f_equal.
  apply tokens_from_fuel; lia.
Qed.

Lemma store_at_end {A : Type} (pre : list A) (x y : A) (rest : list A) :
  store (List.length pre) x (pre ++ y :: rest) = pre ++ x :: rest.
Proof. induction pre as [| z pre IH]; simpl; [reflexivity | now rewrite IH]. Qed.

Lemma tokenize_loop_tokens (slots : nat) (s : string)
    (pre : list (option string)) :
  tokenize_loop slots (Libc.strtok delims s) (List.length pre)
    (pre ++ repeat None slots) =
  pre ++ map Some (firstn slots (tokens s))
      ++ repeat None (slots - List.length (firstn slots (tokens s))).
Proof.
  revert s pre. induction slots as [| slots IH]; intros s pre.
  - reflexivity.
  - rewrite (tokens_step s).
    destruct (Libc.strtok delims s) as [[tok saved] |]; [| reflexivity].
    cbn [tokenize_loop repeat firstn map List.length Nat.sub app].
    rewrite store_at_end.
    replace (S (List.length pre)) with (List.length (pre ++ [Some tok]))
      by (rewrite length_app; simpl; lia).
    change (pre ++ Some tok :: repeat None slots)
      with (pre ++ [Some tok] ++ repeat None slots).
    rewrite app_assoc, IH, <- app_assoc. reflexivity.
Qed.

(** The array the tokenizer leaves: the first nine tokens of the line, and
    indeterminate slots after them when the line has fewer. *)
Lemma tokenize_tokens (line : string) :
  tokenize line =
  map Some (firstn 9 (tokens line))
  ++ repeat None (9 - List.length (firstn 9 (tokens line))).
Proof. exact (tokenize_loop_tokens 9 line []). Qed.

Lemma tokenize_full (line : string) :
  (9 <= List.length (tokens line))%nat ->
  tokenize line = map Some (firstn 9 (tokens line)).
Proof.
  intros H. rewrite tokenize_tokens, length_firstn.
  replace (9 - Nat.min 9 (List.length (tokens line)))%nat with 0%nat by lia.
  apply app_nil_r.
Qed.

Lemma tokenize_short (line : string) :
  (List.length (tokens line) < 9)%nat ->
  nth 8 (tokenize line) None = None.
Proof.
  intros H. rewrite tokenize_tokens.
  destruct (tokens line) as [| t0 l]; [reflexivity |].
  do 8 (destruct l as [| ? l]; [reflexivity |]).
  simpl in H. lia.
Qed.

Section Decoding.

Variable atof : string -> Q.

Lemma decode_indeterminate (tokenList : list (option string)) :
  nth 8 tokenList None = None -> decode atof tokenList = UB.
Proof.
  intros H. unfold decode, read_token. rewrite H.
  repeat match goal with
         | |- context [nth ?i tokenList None] =>
             destruct (nth i tokenList None); simpl; try reflexivity
         end.
Qed.

Lemma decode_nine (toks : list string) :
  (9 <= List.length toks)%nat ->
  exists state, decode atof (map Some (firstn 9 toks)) = Ok state.
Proof.
  intros H.
  destruct toks as [| t0 l]; [simpl in H; lia |].
  do 8 (destruct l as [| ? l]; [simpl in H; lia |]).
  eexists. reflexivity.
Qed.

(** On a buffer with more than nine tokens the tokenizer stores the first
    nine and stops; the buffer is decoded without error from those nine
    alone, so that two buffers that agree on their first nine tokens are
    processed alike whatever follows. *)
Lemma tokens_beyond_ninth_ignored :
  forall (states : table) (line : string),
    (9 < List.length (tokens line))%nat ->
    tokenize line = map Some (firstn 9 (tokens line)) /\
    (exists state,
        decode atof (map Some (firstn 9 (tokens line))) = Ok state /\
        analyze_line atof states line = Ok (consume states state)) /\
    (forall line',
        (9 <= List.length (tokens line'))%nat ->
        firstn 9 (tokens line') = firstn 9 (tokens line) ->
        analyze_line atof states line' = analyze_line atof states line).
Proof.
  intros states line H.
  assert (Hfull : tokenize line = map Some (firstn 9 (tokens line)))
    by (apply tokenize_full; lia).
  split; [exact Hfull | split].
  - destruct (decode_nine (tokens line)) as [state Hs]; [lia |].
    exists state. split; [exact Hs |].
    unfold analyze_line. rewrite Hfull, Hs. reflexivity.
  - intros line' H' Heq. unfold analyze_line.
    now rewrite Hfull, (tokenize_full line' H'), Heq.
Qed.

(** C2, as the code has it: a line with fewer than nine tokens is not
    skipped.  The decoder reads [tokenList[8]], which the tokenizer never
    wrote, and the behaviour of the program is undefined from there on. *)
Theorem short_line_is_undefined :
  forall (states : table) (line : string),
    (List.length (tokens line) < 9)%nat ->
    analyze_line atof states line = UB.
Proof.
  intros states line H. unfold analyze_line.
  now rewrite decode_indeterminate by (now apply tokenize_short).
Qed.

End Decoding.

(** ** The file loop *)

Lemma fgets_read_length (room : nat) (file line rest : string) :
  Libc.fgets_read room file = (line, rest) ->
  String.length file = (String.length line + String.length rest)%nat /\
  (room <> 0%nat -> file <> EmptyString -> line <> EmptyString).
Proof.
  revert file line rest.
  induction room as [| room IH]; intros file line rest H.
  - simpl in H. injection H as <- <-. split; [reflexivity | congruence].
  - destruct file as [| c file]; simpl in H.
    + injection H as <- <-. split; [reflexivity | congruence].
    + destruct (Ascii.eqb c Libc.LF).
      * injection H as <- <-. split; [reflexivity | discriminate].
      * destruct (Libc.fgets_read room file) as [l r] eqn:E.
        injection H as <- <-. destruct (IH _ _ _ E) as [IH1 _].
        split; [simpl; lia | discriminate].
Qed.

Lemma fgets_length (file line rest : string) :
  Libc.fgets line_sz file = Some (line, rest) ->
  (String.length rest < String.length file)%nat.
Proof.
  unfold Libc.fgets. destruct file as [| c file]; [discriminate |].
  intros H.
  assert (Hp : Libc.fgets_read (line_sz - 1) (String c file) = (line, rest))
    by congruence.
  apply fgets_read_length in Hp. destruct Hp as [Hlen Hne].
  assert (Hl : line <> EmptyString) by (apply Hne; discriminate).
  destruct line as [| c' line]; [congruence |].
  rewrite Hlen. simpl. lia.
Qed.

Lemma file_lines_fuel (fuel1 fuel2 : nat) (file : string) :
  (String.length file <= fuel1)%nat -> (String.length file <= fuel2)%nat ->
  file_lines_from fuel1 file = file_lines_from fuel2 file.
Proof.
  revert fuel2 file. induction fuel1 as [| fuel1 IH]; intros fuel2 file H1 H2.
  - destruct file; [| simpl in H1; lia]. destruct fuel2; reflexivity.
  - destruct fuel2 as [| fuel2].
    + destruct file; [reflexivity | simpl in H2; lia].
    + simpl. destruct (Libc.fgets line_sz file) as [[line rest] |] eqn:E;
        [| reflexivity].
      apply fgets_length in E. f_equal. apply IH; lia.
Qed.

Lemma file_lines_step (file : string) :
  file_lines file =
  match Libc.fgets line_sz file with
  | None => []
  | Some (line, rest) => Libc.cstr line :: file_lines rest
  end.
Proof.
  unfold file_lines. destruct file as [| c file]; [reflexivity |].
  cbn [String.length file_lines_from].
  destruct (Libc.fgets line_sz (String c file)) as [[line rest] |] eqn:E;
    [| reflexivity].
  apply fgets_length in E. simpl in E. f_equal.
  apply file_lines_fuel; lia.
Qed.

Lemma fgets_read_line (room : nat) (body rest : string) :
  no_byte Libc.LF body = true ->
  (String.length body < room)%nat ->
  Libc.fgets_read room (body ++ String Libc.LF rest)%string =
  ((body ++ String Libc.LF EmptyString)%string, rest).
Proof.
  revert room. induction body as [| c body IH]; intros room Hno Hlen.
  - destruct room; [simpl in Hlen; lia | reflexivity].
  - destruct room as [| room]; [simpl in Hlen; lia |].
    simpl in Hno. apply andb_true_iff in Hno. destruct Hno as [Hc Hno].
    apply negb_true_iff in Hc. simpl. rewrite Hc.
    rewrite IH; [reflexivity | assumption | simpl in Hlen; lia].
Qed.

Lemma cstr_no_nul (s : string) :
  no_byte Libc.NUL s = true -> Libc.cstr s = s.
Proof.
  induction s as [| c s IH]; simpl; [reflexivity |].
  intros H. apply andb_true_iff in H. destruct H as [Hc Hs].
  apply negb_true_iff in Hc. rewrite Hc. now rewrite IH.
Qed.

(** A line of the file that fits the buffer, newline included, reaches the
    tokenizer whole and alone. *)
Lemma file_lines_line (body rest : string) :
  no_byte Libc.LF body = true ->
  no_byte Libc.NUL body = true ->
  (String.length body < 99)%nat ->
  file_lines (body ++ String Libc.LF rest)%string =
  (body ++ String Libc.LF EmptyString)%string :: file_lines rest.
Proof.
  intros Hlf Hnul Hlen. rewrite file_lines_step.
  assert (E : Libc.fgets line_sz (body ++ String Libc.LF rest)%string =
              Some ((body ++ String Libc.LF EmptyString)%string, rest)).
  { unfold Libc.fgets.
    destruct (body ++ String Libc.LF rest)%string eqn:Eb.
    - destruct body; discriminate.
    - rewrite <- Eb. f_equal. now apply fgets_read_line. }
  rewrite E. f_equal. apply cstr_no_nul.
  clear E Hlf Hlen. induction body as [| c body IH]; [reflexivity |].
  simpl in *. apply andb_true_iff in Hnul. destruct Hnul as [Hc Hs].
  rewrite Hc. now apply IH.
Qed.

Section Files.

Variable atof : string -> Q.

Lemma analyze_file_loop_lines (fuel : nat) (file : string) (states : table) :
  analyze_file_loop atof fuel file states =
  (rs <- decode_lines atof (file_lines_from fuel file) ;;
   Ok (consume_all states rs)).
Proof.
  revert file states. induction fuel as [| fuel IH]; intros file states.
  - reflexivity.
  - simpl. destruct (Libc.fgets line_sz file) as [[line rest] |];
      [| reflexivity].
    unfold analyze_line. simpl.
    destruct (decode atof (tokenize (Libc.cstr line))) as [state |];
      [| reflexivity].
    simpl. rewrite IH.
    destruct (decode_lines atof (file_lines_from fuel rest)); reflexivity.
Qed.

(** More fuel than the length of the file changes nothing: the loop has
    reached the end of the file by then. *)
Lemma analyze_file_fuel (fuel : nat) (file : string) (states : table) :
  (String.length file <= fuel)%nat ->
  analyze_file_loop atof fuel file states = analyze_file atof file states.
Proof.
  intros H. unfold analyze_file. rewrite !analyze_file_loop_lines.
  now rewrite (file_lines_fuel fuel (String.length file)) by lia.
Qed.

Lemma decode_lines_app (l1 l2 : list string) :
  decode_lines atof (l1 ++ l2) =
  (rs1 <- decode_lines atof l1 ;;
   rs2 <- decode_lines atof l2 ;;
   Ok (rs1 ++ rs2)).
Proof.
  induction l1 as [| line l1 IH]; simpl.
  - destruct (decode_lines atof l2); reflexivity.
  - destruct (decode atof (tokenize line)); [| reflexivity]. simpl.
    rewrite IH. destruct (decode_lines atof l1); [| reflexivity]. simpl.
    destruct (decode_lines atof l2); reflexivity.
Qed.

Lemma main_loop_opened (files : list string) (states : table) :
  main_loop atof (map Some files) states =
  (rs <- decode_lines atof (List.concat (map file_lines files)) ;;
   Ok (Some (consume_all states rs))).
Proof.
  revert states. induction files as [| file files IH]; intros states.
  - reflexivity.
  - simpl. unfold analyze_file. rewrite analyze_file_loop_lines.
    fold (file_lines file). rewrite decode_lines_app.
    destruct (decode_lines atof (file_lines file)) as [rs1 |];
      [| reflexivity].
    simpl. rewrite IH.
    destruct (decode_lines atof (List.concat (map file_lines files)))
      as [rs2 |]; [| reflexivity].
    simpl. unfold consume_all. now rewrite fold_left_app.
Qed.

Lemma main_loop_all_opened (args : list (option string))
    (states states' : table) :
  main_loop atof args states = Ok (Some states') ->
  exists files, args = map Some files.
Proof.
  revert states. induction args as [| [file |] args IH]; intros states H.
  - now exists [].
  - simpl in H. destruct (analyze_file atof file states) as [st |];
      [| discriminate].
    destruct (IH _ H) as [files ->]. now exists (file :: files).
  - discriminate.
Qed.

(** A report is a function of the records of all the files, taken in
    argument order. *)
Lemma main_records (args : list (option string))
    (report : list string * list state_report) :
  main atof args = Ok (Some report) ->
  exists files rs,
    args = map Some files /\
    decode_lines atof (List.concat (map file_lines files)) = Ok rs /\
    report = print_report (consume_all init_states rs).
Proof.
  unfold main. destruct args as [| arg args]; [discriminate |].
  destruct (main_loop atof (arg :: args) init_states) as [[states |] |] eqn:E;
    try discriminate.
  intros [= <-].
  destruct (main_loop_all_opened _ _ _ E) as [files Hfiles].
  rewrite Hfiles, main_loop_opened in E.
  destruct (decode_lines atof (List.concat (map file_lines files)))
    as [rs |] eqn:Hrs; [| discriminate].
  injection E as <-. exists files, rs. repeat split; assumption.
Qed.

End Files.

(** ** Counts and running sums of one entry *)

Lemma update_num_records (a r : climate_info) :
  num_records (update a r) = wrap_unsigned 64 (num_records a + 1).
Proof. now rewrite update_fields. Qed.

Lemma accumulate_count (l : list climate_info) (a : climate_info) :
  Forall fresh_record l ->
  accumulate l = Some a ->
  num_records a = wrap_unsigned 64 (Z.of_nat (List.length l)).
Proof.
  destruct l as [| r0 l]; [discriminate |].
  intros HF Hacc. inversion HF as [| ? ? (_ & _ & _ & Hone) _]; subst. clear HF.
  simpl in Hacc. injection Hacc as <-.
  induction l as [| r l IH] using rev_ind.
  - simpl. rewrite Hone. reflexivity.
  - rewrite fold_left_app. simpl fold_left.
    rewrite update_num_records, IH. unfold wrap_unsigned.
    rewrite Z.add_mod_idemp_l by (apply Z.pow_nonzero; lia).
    f_equal. simpl List.length. rewrite length_app. simpl. lia.
Qed.

Lemma fold_update_total (field : climate_info -> Q) (l : list climate_info)
    (a : climate_info) :
  (forall x y, field (update x y) = (field x + field y)%Q) ->
  field (fold_left update l a) = fold_left Qplus (map field l) (field a).
Proof.
  intros Hfield. revert a. induction l as [| r l IH]; intros a; simpl.
  - reflexivity.
  - now rewrite IH, Hfield.
Qed.

Lemma accumulate_total (field : climate_info -> Q) (l : list climate_info)
    (a : climate_info) :
  (forall x y, field (update x y) = (field x + field y)%Q) ->
  accumulate l = Some a ->
  field a = total field l.
Proof.
  intros Hfield. destruct l as [| r0 l]; [discriminate |].
  simpl. intros [= <-]. now apply fold_update_total.
Qed.

Lemma update_humidity (a r : climate_info) :
  humidity (update a r) = (humidity a + humidity r)%Q.
Proof. now rewrite update_fields. Qed.

Lemma update_temp (a r : climate_info) :
  temp (update a r) = (temp a + temp r)%Q.
Proof. now rewrite update_fields. Qed.

Lemma update_cloud_cover (a r : climate_info) :
  cloud_cover (update a r) = (cloud_cover a + cloud_cover r)%Q.
Proof. now rewrite update_fields. Qed.

Lemma update_pressure (a r : climate_info) :
  pressure (update a r) = (pressure a + pressure r)%Q.
Proof. now rewrite update_fields. Qed.

Lemma records_of_length (c : string) (rs : list climate_info) :
  (List.length (records_of c rs) <= List.length rs)%nat.
Proof. apply filter_length_le. Qed.

Lemma quotient_times_count (sum : Q) (n : Z) :
  n <> 0 -> (sum / inject_Z n * inject_Z n == sum)%Q.
Proof.
  intros Hn. rewrite Qmult_comm. apply Qmult_div_r.
  unfold Qeq. simpl. lia.
Qed.

(** C8: for the table built from fewer than 2^64 decoded records, every
    block of the report carries the number of records of its code, and each
    reported average (humidity, temperature, cloud cover) times that number
    is the running sum of the field over those records. *)
Theorem averages_follow_sums :
  forall (rs : list climate_info) (b : state_report),
    Forall fresh_record rs ->
    Z.of_nat (List.length rs) < 2 ^ 64 ->
    In b (snd (print_report (consume_all init_states rs))) ->
    let mine := records_of (r_code b) rs in
    r_num_records b = Z.of_nat (List.length mine) /\
    (r_avg_humidity b * inject_Z (r_num_records b) == total humidity mine)%Q /\
    (r_avg_temp b * inject_Z (r_num_records b) == total temp mine)%Q /\
    (r_avg_cloud_cover b * inject_Z (r_num_records b)
     == total cloud_cover mine)%Q.
Proof.
  intros rs b HF Hlen Hin mine. simpl in Hin.
  apply in_map_iff in Hin. destruct Hin as [a [<- Hin]].
  unfold init_states in Hin. apply entry_accumulates in Hin.
  subst mine. cbn [report_block r_code r_num_records r_avg_humidity
                   r_avg_temp r_avg_cloud_cover].
  assert (HFm : Forall fresh_record (records_of (code a) rs)).
  { apply Forall_forall. intros r Hr. apply filter_In in Hr.
    destruct Hr as [Hr _]. revert r Hr. now apply Forall_forall. }
  pose proof (accumulate_count _ _ HFm Hin) as Hcount.
  pose proof (records_of_length (code a) rs) as Hle.
  assert (Hpos : (0 < List.length (records_of (code a) rs))%nat).
  { destruct (records_of (code a) rs); [discriminate | simpl; lia]. }
  unfold wrap_unsigned in Hcount. rewrite Z.mod_small in Hcount by lia.
  rewrite <- (accumulate_total humidity _ a update_humidity Hin).
  rewrite <- (accumulate_total temp _ a update_temp Hin).
  rewrite <- (accumulate_total cloud_cover _ a update_cloud_cover Hin).
  repeat split; try exact Hcount; apply quotient_times_count; lia.
Qed.

(** ** The table fills up *)

Lemma summary_length (n : nat) (rs : list climate_info) :
  List.length (summary n rs) =
  List.length (entries (consume_all (repeat None n) rs)).
Proof.
  rewrite <- (length_map code (entries _)).
  fold (codes (consume_all (repeat None n) rs)).
  rewrite codes_consume_all. unfold summary. now rewrite length_map.
Qed.

Lemma consume_untracked (n : nat) (rs : list climate_info)
    (state : climate_info) :
  ~ In (code state) (codes (consume_all (repeat None n) rs)) ->
  consume (consume_all (repeat None n) rs) state =
  summary n rs
  ++ consume (repeat None (n - List.length (summary n rs))) state.
Proof.
  intros Hn. rewrite codes_consume_all in Hn.
  rewrite consume_all_summary. unfold summary at 1 3.
  apply consume_miss; [| exact Hn].
  intros c Hc. exact (summary_entry n rs c Hc).
Qed.

Lemma consume_full (n : nat) (rs : list climate_info) (state : climate_info) :
  List.length (entries (consume_all (repeat None n) rs)) = n ->
  ~ In (code state) (codes (consume_all (repeat None n) rs)) ->
  consume (consume_all (repeat None n) rs) state =
  consume_all (repeat None n) rs.
Proof.
  intros Hfull Hn. rewrite consume_untracked by assumption.
  rewrite (consume_all_summary n rs).
  now rewrite summary_length, Hfull, Nat.sub_diag.
Qed.

Lemma consume_free (n : nat) (rs : list climate_info) (state : climate_info) :
  (List.length (entries (consume_all (repeat None n) rs)) < n)%nat ->
  ~ In (code state) (codes (consume_all (repeat None n) rs)) ->
  entries (consume (consume_all (repeat None n) rs) state) =
  entries (consume_all (repeat None n) rs) ++ [state].
Proof.
  intros Hfree Hn. rewrite consume_untracked by assumption.
  rewrite entries_consume_all, summary_length.
  destruct (n - List.length (entries (consume_all (repeat None n) rs)))%nat
    as [| k] eqn:Ek; [lia |].
  simpl. rewrite entries_app. simpl. now rewrite entries_nulls.
Qed.

(** C3, as the code has it: the table holds at most [NUM_STATES] entries;
    the codes it tracks are the first [NUM_STATES] distinct codes of the
    input, so every code is tracked when the input has no more than that
    many; every entry is the fold of all the records of its code; and a
    record with a further code, met when the table is full, leaves the
    table as it was. *)
Theorem tracks_first_fifty_codes :
  forall rs : list climate_info,
    let states := consume_all init_states rs in
    (List.length (entries states) <= NUM_STATES)%nat /\
    (forall c,
        In c (codes states) <->
        In c (firstn NUM_STATES (first_seen (map code rs)))) /\
    ((List.length (first_seen (map code rs)) <= NUM_STATES)%nat ->
     forall r, In r rs -> In (code r) (codes states)) /\
    (forall a,
        In a (entries states) ->
        accumulate (records_of (code a) rs) = Some a) /\
    (forall state,
        List.length (entries states) = NUM_STATES ->
        ~ In (code state) (codes states) ->
        consume states state = states).
Proof.
  intros rs states. subst states. unfold init_states.
  split; [apply entries_length | split; [| split; [| split]]].
  - intros c. now rewrite codes_consume_all.
  - intros Hfew r Hr. rewrite codes_consume_all, firstn_all2 by assumption.
    apply first_seen_In. now apply in_map.
  - intros a. apply entry_accumulates.
  - intros state. apply consume_full.
Qed.

(** ** Discovery order *)

Lemma first_seen_grows (l more : list string) :
  exists later, first_seen (l ++ more) = first_seen l ++ later.
Proof.
  induction more as [| c more IH] using rev_ind.
  - exists []. now rewrite !app_nil_r.
  - destruct IH as [later IH]. rewrite app_assoc, first_seen_snoc, IH.
    unfold see. destruct (existsb (String.eqb c) (first_seen l ++ later)).
    + now exists later.
    + exists (later ++ [c]). now rewrite app_assoc.
Qed.

Lemma codes_grow (n : nat) (rs more : list climate_info) :
  exists later,
    codes (consume_all (repeat None n) (rs ++ more)) =
    codes (consume_all (repeat None n) rs) ++ later.
Proof.
  rewrite !codes_consume_all, map_app.
  destruct (first_seen_grows (map code rs) (map code more)) as [later ->].
  rewrite firstn_app. eexists. reflexivity.
Qed.

(** C5: when [main] prints a report, every file was opened, and the
    "States found" line and the sequence of blocks both list the codes of
    the records of all the files, read in argument order, each code at the
    place of its first occurrence; and whatever records are consumed
    afterwards, the codes already listed stay where they are, new ones
    coming after. *)
Theorem discovery_order_preserved :
  forall (atof : string -> Q) (args : list (option string))
         (found : list string) (blocks : list state_report),
    main atof args = Ok (Some (found, blocks)) ->
    exists files rs,
      args = map Some files /\
      decode_lines atof (List.concat (map file_lines files)) = Ok rs /\
      found = firstn NUM_STATES (first_seen (map code rs)) /\
      map r_code blocks = found /\
      forall more, exists later,
        codes (consume_all init_states (rs ++ more)) = found ++ later.
Proof.
  intros atof args found blocks Hmain.
  apply main_records in Hmain.
  destruct Hmain as (files & rs & Hargs & Hrs & Hreport).
  exists files, rs. split; [exact Hargs | split; [exact Hrs |]].
  unfold print_report in Hreport. injection Hreport as Hfound Hblocks.
  fold (codes (consume_all init_states rs)) in Hfound.
  assert (Hcodes : found = firstn NUM_STATES (first_seen (map code rs))).
  { rewrite Hfound. apply codes_consume_all. }
  split; [exact Hcodes | split].
  - rewrite Hblocks, map_map. simpl. now rewrite Hfound.
  - intros more. rewrite Hfound. apply codes_grow.
Qed.

(** ** Decoding *)

Section Fields.

Variable atof : string -> Q.

Lemma decode_fields (tokenList : list (option string)) (state : climate_info) :
  decode atof tokenList = Ok state ->
  exists t0 t1 t3 t4 t5 t6 t7 t8,
    nth 0 tokenList None = Some t0 /\ nth 1 tokenList None = Some t1 /\
    nth 3 tokenList None = Some t3 /\ nth 4 tokenList None = Some t4 /\
    nth 5 tokenList None = Some t5 /\ nth 6 tokenList None = Some t6 /\
    nth 7 tokenList None = Some t7 /\ nth 8 tokenList None = Some t8 /\
    state =
    {| code := Libc.strncpy t0 2;
       num_records := 1;
       temp := kelvin_to_fahrenheit (atof t8);
       humidity := atof t3;
       max_temp := kelvin_to_fahrenheit (atof t8);
       max_temp_date := to_long (atof t1 / 1000)%Q;
       min_temp := kelvin_to_fahrenheit (atof t8);
       min_temp_date := to_long (atof t1 / 1000)%Q;
       lightning_strikes := to_int (atof t6);
       snow := to_int (atof t4);
       cloud_cover := atof t5;
       pressure := atof t7 |}.
Proof.
  unfold decode, read_token. intros H.
  destruct (nth 0 tokenList None) as [t0 |]; [| discriminate].
  destruct (nth 1 tokenList None) as [t1 |]; [| discriminate].
  destruct (nth 3 tokenList None) as [t3 |]; [| discriminate].
  destruct (nth 4 tokenList None) as [t4 |]; [| discriminate].
  destruct (nth 5 tokenList None) as [t5 |]; [| discriminate].
  destruct (nth 6 tokenList None) as [t6 |]; [| discriminate].
  destruct (nth 7 tokenList None) as [t7 |]; [| discriminate].
  destruct (nth 8 tokenList None) as [t8 |]; [| discriminate].
  simpl in H. injection H as <-.
  exists t0, t1, t3, t4, t5, t6, t7, t8. repeat split; reflexivity.
Qed.

Lemma decode_fresh (tokenList : list (option string)) (state : climate_info) :
  decode atof tokenList = Ok state -> fresh_record state.
Proof.
  intros H. apply decode_fields in H.
  destruct H as (t0 & t1 & t3 & t4 & t5 & t6 & t7 & t8 & H).
  destruct H as (_ & _ & _ & _ & _ & _ & _ & _ & ->).
  repeat split.
Qed.

(** C6: the temperature of a decoded record is field 8 converted by
    [K * 9 / 5 - 459.67]; the record's [max_temp] and [min_temp] hold the same
    value, and folding the record into an entry adds that value to the
    temperature sum and compares that value with the entry's extrema. *)
Theorem temperature_converted_once :
  forall (tokenList : list (option string)) (state : climate_info),
    decode atof tokenList = Ok state ->
    exists t8,
      nth 8 tokenList None = Some t8 /\
      temp state = kelvin_to_fahrenheit (atof t8) /\
      max_temp state = temp state /\
      min_temp state = temp state /\
      forall a,
        temp (update a state) = (temp a + temp state)%Q /\
        max_temp (update a state) =
          (if Qle_bool (max_temp a) (temp state) then temp state
           else max_temp a) /\
        min_temp (update a state) =
          (if Qle_bool (temp state) (min_temp a) then temp state
           else min_temp a).
Proof.
  intros tokenList state H. apply decode_fields in H.
  destruct H as (t0 & t1 & t3 & t4 & t5 & t6 & t7 & t8 & H).
  destruct H as (_ & _ & _ & _ & _ & _ & _ & H8 & ->).
  exists t8. repeat split; try assumption.
  - apply update_temp.
  - apply update_max_temp.
  - apply update_min_temp.
Qed.

(** C7, as the code has it: while the table has a free slot, a decoded
    record whose code it does not hold becomes the last entry as it stands:
    it counts one record, its sums are the record's own values, [max_temp]
    and [min_temp] are the record's temperature, and both dates are the
    record's timestamp. *)
Theorem new_code_appends_record :
  forall (rs : list climate_info) (tokenList : list (option string))
         (state : climate_info),
    let states := consume_all init_states rs in
    decode atof tokenList = Ok state ->
    ~ In (code state) (codes states) ->
    (List.length (entries states) < NUM_STATES)%nat ->
    entries (consume states state) = entries states ++ [state] /\
    num_records state = 1 /\
    max_temp state = temp state /\ min_temp state = temp state /\
    exists t1,
      nth 1 tokenList None = Some t1 /\
      max_temp_date state = to_long (atof t1 / 1000)%Q /\
      min_temp_date state = to_long (atof t1 / 1000)%Q.
Proof.
  intros rs tokenList state states Hdec Hnew Hfree. subst states.
  unfold init_states in *. split; [now apply consume_free |].
  apply decode_fields in Hdec.
  destruct Hdec as (t0 & t1 & t3 & t4 & t5 & t6 & t7 & t8 & H).
  destruct H as (_ & H1 & _ & _ & _ & _ & _ & _ & ->).
  repeat split. exists t1. repeat split. exact H1.
Qed.

End Fields.

(** ** Pressure *)

Lemma update_forget_pressure (a r : climate_info) :
  update (forget_pressure a) (forget_pressure r) =
  forget_pressure (update a r).
Proof. rewrite !update_fields. reflexivity. Qed.

Lemma consume_forget_pressure (states : table) (r : climate_info) :
  consume (map (option_map forget_pressure) states) (forget_pressure r) =
  map (option_map forget_pressure) (consume states r).
Proof.
  induction states as [| [a |] rest IH]; simpl; try reflexivity.
  destruct (String.eqb (code a) (code r)); simpl.
  - now rewrite update_forget_pressure.
  - now rewrite IH.
Qed.

Lemma consume_all_forget_pressure (rs : list climate_info) (states : table) :
  consume_all (map (option_map forget_pressure) states)
              (map forget_pressure rs) =
  map (option_map forget_pressure) (consume_all states rs).
Proof.
  revert states. induction rs as [| r rs IH]; intros states; simpl.
  - reflexivity.
  - rewrite consume_forget_pressure. apply IH.
Qed.

Lemma print_report_forget_pressure (states : table) :
  print_report (map (option_map forget_pressure) states) =
  print_report states.
Proof.
  unfold print_report.
  assert (H : entries (map (option_map forget_pressure) states) =
              map forget_pressure (entries states)).
  { induction states as [| [a |] rest IH]; simpl; congruence. }
  rewrite H, !map_map. reflexivity.
Qed.

(** C9, as the code has it: field 7 is decoded into the record; folding the
    record into an entry adds its pressure to the entry's pressure sum and
    touches nothing else with it; and the report is the same whatever the
    pressures of the table and of the records are. *)
Theorem pressure_summed_not_reported :
  forall (atof : string -> Q) (tokenList : list (option string))
         (state : climate_info),
    decode atof tokenList = Ok state ->
    (exists t7, nth 7 tokenList None = Some t7 /\ pressure state = atof t7) /\
    (forall a,
        pressure (update a state) = (pressure a + pressure state)%Q /\
        update (forget_pressure a) (forget_pressure state) =
        forget_pressure (update a state)) /\
    (forall states rs,
        print_report
          (consume_all (map (option_map forget_pressure) states)
                       (map forget_pressure rs)) =
        print_report (consume_all states rs)).
Proof.
  intros atof tokenList state H. apply decode_fields in H.
  destruct H as (t0 & t1 & t3 & t4 & t5 & t6 & t7 & t8 & H).
  destruct H as (_ & _ & _ & _ & _ & _ & H7 & _ & ->).
  split; [exists t7; split; [exact H7 | reflexivity] | split].
  - intros a. split; [apply update_pressure | apply update_forget_pressure].
  - intros states rs.
    now rewrite consume_all_forget_pressure, print_report_forget_pressure.
Qed.

(** ** The program on sample inputs *)

Example main_usage : main Libc.atof_decimal [] = Ok None.
Proof. reflexivity. Qed.

Example main_cannot_open :
  main Libc.atof_decimal [Some line_wa; None; Some line_tn] = Ok None.
Proof. vm_compute. reflexivity. Qed.

Example decode_ca_1 :
  decode Libc.atof_decimal (tokenize line_ca_1) = Ok ca_1.
Proof. vm_compute. reflexivity. Qed.

Example decode_ca_2 :
  decode Libc.atof_decimal (tokenize line_ca_2) = Ok ca_2.
Proof. vm_compute. reflexivity. Qed.

Example ca_1_fahrenheit : (temp ca_1 == 80.33)%Q.
Proof. vm_compute. reflexivity. Qed.

(** The scenario of two [CA] lines with the same temperature: two records,
    one lightning strike, and both dates from the second line. *)
Example tie_goes_to_second_line :
  num_records ca_both = 2 /\ lightning_strikes ca_both = 1 /\
  max_temp_date ca_both = 2000 /\ min_temp_date ca_both = 2000.
Proof. vm_compute. repeat split. Qed.

Example main_wa_tn :
  main Libc.atof_decimal [Some line_wa; Some line_tn] = Ok (Some wa_tn_report).
Proof. vm_compute. reflexivity. Qed.

Example wa_before_tn : fst wa_tn_report = ["WA"; "TN"].
Proof. reflexivity. Qed.

Example first_seen_sample :
  first_seen ["WA"; "TN"; "WA"; "CA"; "TN"] = ["WA"; "TN"; "CA"].
Proof. reflexivity. Qed.

Example long_line_chunks :
  map String.length
    (file_lines (String.concat EmptyString (repeat "0123456789" 25)))
  = [99; 99; 52]%nat.
Proof. vm_compute. reflexivity. Qed.

Lemma not_In_eqb (c : string) (l : list string) :
  existsb (String.eqb c) l = false -> ~ In c l.
Proof.
  intros H Hin. apply existsb_eqb_In in Hin. congruence.
Qed.

(** ** Where the table of fifty slots shows *)

(** C3, as the claim has it, fails: a file of fifty-one lines with
    fifty-one codes decodes without error, its last record has code [BY],
    and the report lists fifty codes without [BY]. *)
Lemma fifty_first_code_dropped :
  decode_lines Libc.atof_decimal (file_lines fifty_one_lines)
  = Ok (fifty_records ++ [by_record]) /\
  main Libc.atof_decimal [Some fifty_one_lines] = Ok (Some fifty_one_report) /\
  List.length (fst fifty_one_report) = 50%nat /\
  ~ In (code by_record) (fst fifty_one_report).
Proof.
  split; [vm_compute; reflexivity | split; [vm_compute; reflexivity |]].
  split; [reflexivity |].
  apply not_In_eqb. vm_compute. reflexivity.
Qed.

(** C7, as the claim has it, fails: with fifty entries in the table, a
    decoded record with a code the table does not hold leaves the table
    unchanged, and no entry is made for it. *)
Lemma full_table_drops_new_code :
  decode Libc.atof_decimal (tokenize (line_of_code "BY")) = Ok by_record /\
  ~ In (code by_record) (codes (consume_all init_states fifty_records)) /\
  consume (consume_all init_states fifty_records) by_record
  = consume_all init_states fifty_records.
Proof.
  split; [vm_compute; reflexivity | split].
  - apply not_In_eqb. vm_compute. reflexivity.
  - vm_compute. reflexivity.
Qed.

(** C9, as the claim has it, fails: folding the second [CA] record into
    the entry of the first changes the entry's pressure, by the pressure of
    the record. *)
Lemma pressure_enters_the_entry :
  entries (consume_all init_states [ca_1]) = [ca_1] /\
  entries (consume (consume_all init_states [ca_1]) ca_2) = [ca_both] /\
  pressure ca_both = (pressure ca_1 + pressure ca_2)%Q /\
  (pressure ca_1 == 101325)%Q /\ (pressure ca_both == 202625)%Q.
Proof. repeat split; vm_compute; reflexivity. Qed.

(** ** The theorems at sample inputs *)

Lemma max_temp_witness :
  Forall fresh_record [ca_1; ca_2] /\
  In ca_both (entries (consume_all init_states [ca_1; ca_2])) /\
  exists pre x post,
    last_maximum (records_of (code ca_both) [ca_1; ca_2]) pre x post /\
    max_temp ca_both = temp x /\ max_temp_date ca_both = max_temp_date x.
Proof.
  assert (HF : Forall fresh_record [ca_1; ca_2])
    by (repeat constructor).
  assert (Hin : In ca_both (entries (consume_all init_states [ca_1; ca_2])))
    by (vm_compute; left; reflexivity).
  split; [exact HF | split; [exact Hin |]].
  exact (proj1 (max_temp_is_maximum_last_wins [ca_1; ca_2] ca_both HF Hin)).
Defined.

Lemma min_temp_witness :
  Forall fresh_record [ca_1; ca_2] /\
  In ca_both (entries (consume_all init_states [ca_1; ca_2])) /\
  exists pre x post,
    last_minimum (records_of (code ca_both) [ca_1; ca_2]) pre x post /\
    min_temp ca_both = temp x /\ min_temp_date ca_both = min_temp_date x.
Proof.
  assert (HF : Forall fresh_record [ca_1; ca_2])
    by (repeat constructor).
  assert (Hin : In ca_both (entries (consume_all init_states [ca_1; ca_2])))
    by (vm_compute; left; reflexivity).
  split; [exact HF | split; [exact Hin |]].
  exact (proj1 (min_temp_is_minimum_last_wins [ca_1; ca_2] ca_both HF Hin)).
Defined.

Lemma short_line_witness :
  (List.length (tokens line_short) < 9)%nat /\
  analyze_line Libc.atof_decimal init_states line_short = UB.
Proof.
  assert (H : (List.length (tokens line_short) < 9)%nat)
    by (vm_compute; lia).
  split; [exact H |].
  exact (short_line_is_undefined Libc.atof_decimal init_states line_short H).
Defined.

Lemma discovery_order_witness :
  main Libc.atof_decimal [Some line_wa; Some line_tn]
  = Ok (Some wa_tn_report) /\
  exists files rs,
    [Some line_wa; Some line_tn] = map Some files /\
    decode_lines Libc.atof_decimal (List.concat (map file_lines files))
    = Ok rs /\
    fst wa_tn_report = firstn NUM_STATES (first_seen (map code rs)) /\
    map r_code (snd wa_tn_report) = fst wa_tn_report /\
    forall more, exists later,
      codes (consume_all init_states (rs ++ more))
      = fst wa_tn_report ++ later.
Proof.
  assert (H : main Libc.atof_decimal [Some line_wa; Some line_tn]
              = Ok (Some wa_tn_report))
    by (vm_compute; reflexivity).
  split; [exact H |].
  exact (discovery_order_preserved Libc.atof_decimal
           [Some line_wa; Some line_tn]
           (fst wa_tn_report) (snd wa_tn_report) H).
Defined.

Lemma temperature_witness :
  decode Libc.atof_decimal (tokenize line_ca_1) = Ok ca_1 /\
  exists t8,
    nth 8 (tokenize line_ca_1) None = Some t8 /\
    temp ca_1 = kelvin_to_fahrenheit (Libc.atof_decimal t8).
Proof.
  assert (H : decode Libc.atof_decimal (tokenize line_ca_1) = Ok ca_1)
    by (vm_compute; reflexivity).
  split; [exact H |].
  destruct (temperature_converted_once Libc.atof_decimal
              (tokenize line_ca_1) ca_1 H) as (t8 & H8 & Ht & _).
  exists t8. split; assumption.
Defined.

Lemma new_code_witness :
  decode Libc.atof_decimal (tokenize line_wa) = Ok (sample line_wa) /\
  ~ In (code (sample line_wa)) (codes (consume_all init_states [ca_1])) /\
  (List.length (entries (consume_all init_states [ca_1])) < NUM_STATES)%nat /\
  entries (consume (consume_all init_states [ca_1]) (sample line_wa))
  = entries (consume_all init_states [ca_1]) ++ [sample line_wa].
Proof.
  assert (Hdec : decode Libc.atof_decimal (tokenize line_wa)
                 = Ok (sample line_wa))
    by (vm_compute; reflexivity).
  assert (Hnew : ~ In (code (sample line_wa))
                      (codes (consume_all init_states [ca_1])))
    by (apply not_In_eqb; vm_compute; reflexivity).
  assert (Hfree : (List.length (entries (consume_all init_states [ca_1]))
                   < NUM_STATES)%nat)
    by (vm_compute; lia).
  split; [exact Hdec | split; [exact Hnew | split; [exact Hfree |]]].
  exact (proj1 (new_code_appends_record Libc.atof_decimal [ca_1]
                  (tokenize line_wa) (sample line_wa) Hdec Hnew Hfree)).
Defined.

Lemma averages_witness :
  Forall fresh_record [ca_1; ca_2] /\
  In ca_block (snd (print_report (consume_all init_states [ca_1; ca_2]))) /\
  r_num_records ca_block = 2 /\
  (r_avg_humidity ca_block * inject_Z (r_num_records ca_block)
   == total humidity (records_of (r_code ca_block) [ca_1; ca_2]))%Q.
Proof.
  assert (HF : Forall fresh_record [ca_1; ca_2])
    by (repeat constructor).
  assert (Hlen : Z.of_nat (List.length [ca_1; ca_2]) < 2 ^ 64)
    by (vm_compute; reflexivity).
  assert (Hin : In ca_block
                   (snd (print_report (consume_all init_states [ca_1; ca_2]))))
    by (vm_compute; left; reflexivity).
  split; [exact HF | split; [exact Hin |]].
  destruct (averages_follow_sums [ca_1; ca_2] ca_block HF Hlen Hin)
    as (Hn & Hh & _).
  split; [exact Hn | exact Hh].
Defined.

Lemma pressure_witness :
  decode Libc.atof_decimal (tokenize line_ca_1) = Ok ca_1 /\
  exists t7,
    nth 7 (tokenize line_ca_1) None = Some t7 /\
    pressure ca_1 = Libc.atof_decimal t7.
Proof.
  assert (H : decode Libc.atof_decimal (tokenize line_ca_1) = Ok ca_1)
    by (vm_compute; reflexivity).
  split; [exact H |].
  exact (proj1 (pressure_summed_not_reported Libc.atof_decimal
                  (tokenize line_ca_1) ca_1 H)).
Defined.

(** * Further properties of the program *)

(** ** [main]: a file that cannot be opened *)

Lemma main_loop_unopened (atof : string -> Q) (files : list string)
    (rest : list (option string)) (states : table) :
  main_loop atof (map Some files ++ None :: rest) states =
  (rs <- decode_lines atof (List.concat (map file_lines files)) ;; Ok None).
Proof.
  revert states. induction files as [| file files IH]; intros states.
  - reflexivity.
  - simpl. unfold analyze_file. rewrite analyze_file_loop_lines.
    fold (file_lines file). rewrite decode_lines_app.
    destruct (decode_lines atof (file_lines file)) as [rs1 |];
      [| reflexivity].
    simpl. rewrite IH.
    destruct (decode_lines atof (List.concat (map file_lines files)));
      reflexivity.
Qed.

(** X1: when an argument names a file that cannot be opened, [main] ends
    without a report.  The files before it have been analyzed by then, so a
    line of theirs with too few tokens still makes the run undefined; the
    arguments after it are not looked at. *)
Theorem unopened_file_ends_the_run :
  forall (atof : string -> Q) (files : list string)
         (rest : list (option string)),
    main atof (map Some files ++ None :: rest) =
    (rs <- decode_lines atof (List.concat (map file_lines files)) ;;
     Ok None).
Proof.
  intros atof files rest. unfold main.
  destruct (map Some files ++ None :: rest) as [| arg args] eqn:E.
  - destruct files; discriminate.
  - rewrite <- E, main_loop_unopened.
    destruct (decode_lines atof (List.concat (map file_lines files)));
      reflexivity.
Qed.

(** ** When the run is defined *)

Lemma decode_lines_defined (atof : string -> Q) (lines : list string) :
  Forall (fun line => (9 <= List.length (tokens line))%nat) lines ->
  exists rs, decode_lines atof lines = Ok rs.
Proof.
  induction 1 as [| line lines Hline _ IH]; simpl.
  - now exists [].
  - rewrite (tokenize_full line Hline).
    destruct (decode_nine atof (tokens line) Hline) as [state ->].
    destruct IH as [rs ->]. simpl. now exists (state :: rs).
Qed.

Lemma decode_lines_undefined (atof : string -> Q) (lines : list string) :
  Exists (fun line => (List.length (tokens line) < 9)%nat) lines ->
  decode_lines atof lines = UB.
Proof.
  induction 1 as [line lines Hline | line lines _ IH]; simpl.
  - now rewrite decode_indeterminate by (now apply tokenize_short).
  - destruct (decode atof (tokenize line)); [| reflexivity].
    simpl. now rewrite IH.
Qed.

(** X2: with every file opened, [main] prints a report when every line
    that [fgets] delivers has at least nine tokens, and its behaviour is
    undefined as soon as one line, in any file, has fewer. *)
Theorem run_defined_by_token_counts :
  forall (atof : string -> Q) (files : list string),
    files <> [] ->
    let lines := List.concat (map file_lines files) in
    (Forall (fun line => (9 <= List.length (tokens line))%nat) lines ->
     exists report, main atof (map Some files) = Ok (Some report)) /\
    (Exists (fun line => (List.length (tokens line) < 9)%nat) lines ->
     main atof (map Some files) = UB).
Proof.
  intros atof files Hne lines. subst lines.
  assert (Hmain : main atof (map Some files) =
                  (states <- main_loop atof (map Some files) init_states ;;
                   Ok (option_map print_report states))).
  { destruct files; [congruence | reflexivity]. }
  rewrite Hmain, main_loop_opened. split.
  - intros Hall. destruct (decode_lines_defined atof _ Hall) as [rs ->].
    simpl. eexists. reflexivity.
  - intros Hshort. now rewrite (decode_lines_undefined atof _ Hshort).
Qed.

Lemma run_defined_witness :
  [line_wa; line_tn] <> [] /\
  exists report,
    main Libc.atof_decimal (map Some [line_wa; line_tn]) = Ok (Some report).
Proof.
  assert (Hne : [line_wa; line_tn] <> []) by discriminate.
  split; [exact Hne |].
  apply (proj1 (run_defined_by_token_counts Libc.atof_decimal
                  [line_wa; line_tn] Hne)).
  vm_compute. repeat constructor.
Defined.

(** ** Reading the file in buffers *)

Lemma append_empty_r (s : string) : (s ++ EmptyString)%string = s.
Proof. induction s as [| c s IH]; simpl; [reflexivity | now rewrite IH]. Qed.

Lemma append_assoc_string (s1 s2 s3 : string) :
  ((s1 ++ s2) ++ s3)%string = (s1 ++ s2 ++ s3)%string.
Proof. induction s1 as [| c s1 IH]; simpl; [reflexivity | now rewrite IH]. Qed.

Lemma append_length (s1 s2 : string) :
  String.length (s1 ++ s2) = (String.length s1 + String.length s2)%nat.
Proof. induction s1 as [| c s1 IH]; simpl; [reflexivity | now rewrite IH]. Qed.

Lemma no_byte_append (b : ascii) (s1 s2 : string) :
  no_byte b (s1 ++ s2) = no_byte b s1 && no_byte b s2.
Proof.
  induction s1 as [| c s1 IH]; simpl; [reflexivity |].
  now rewrite IH, andb_assoc.
Qed.

Lemma concat_empty_cons (x : string) (xs : list string) :
  String.concat EmptyString (x :: xs) =
  (x ++ String.concat EmptyString xs)%string.
Proof.
  destruct xs as [| y ys]; simpl; [now rewrite append_empty_r | reflexivity].
Qed.

Lemma fgets_read_split (room : nat) (file line rest : string) :
  Libc.fgets_read room file = (line, rest) ->
  file = (line ++ rest)%string /\ (String.length line <= room)%nat.
Proof.
  revert file line rest.
  induction room as [| room IH]; intros file line rest H.
  - simpl in H. injection H as <- <-. split; [reflexivity | simpl; lia].
  - destruct file as [| c file]; simpl in H.
    + injection H as <- <-. split; [reflexivity | simpl; lia].
    + destruct (Ascii.eqb c Libc.LF).
      * injection H as <- <-. split; [reflexivity | simpl; lia].
      * destruct (Libc.fgets_read room file) as [l r] eqn:E.
        injection H as <- <-. destruct (IH _ _ _ E) as [-> Hl].
        split; [reflexivity | simpl; lia].
Qed.

Lemma fgets_split (file line rest : string) :
  Libc.fgets line_sz file = Some (line, rest) ->
  file = (line ++ rest)%string /\
  (1 <= String.length line <= 99)%nat.
Proof.
  intros H. pose proof (fgets_length _ _ _ H) as Hlt.
  unfold Libc.fgets in H. destruct file as [| c file]; [discriminate |].
  assert (Hp : Libc.fgets_read (line_sz - 1) (String c file) = (line, rest))
    by congruence.
  apply fgets_read_split in Hp. destruct Hp as [Hfile Hlen].
  split; [exact Hfile |].
  change (line_sz - 1)%nat with 99%nat in Hlen.
  rewrite Hfile, append_length in Hlt. lia.
Qed.

Lemma file_lines_from_buffers (fuel : nat) (file : string) :
  (String.length file <= fuel)%nat ->
  no_byte Libc.NUL file = true ->
  String.concat EmptyString (file_lines_from fuel file) = file /\
  Forall (fun line => (1 <= String.length line <= 99)%nat)
         (file_lines_from fuel file).
Proof.
  revert file. induction fuel as [| fuel IH]; intros file Hlen Hnul.
  - destruct file; [| simpl in Hlen; lia]. split; [reflexivity | constructor].
  - cbn [file_lines_from].
    destruct (Libc.fgets line_sz file) as [[line rest] |] eqn:E.
    + pose proof (fgets_length _ _ _ E) as Hlt.
      destruct (fgets_split _ _ _ E) as [Hfile Hline].
      rewrite Hfile, no_byte_append in Hnul.
      apply andb_true_iff in Hnul. destruct Hnul as [Hl Hr].
      destruct (IH rest) as [IH1 IH2]; [lia | exact Hr |].
      rewrite (cstr_no_nul line Hl), concat_empty_cons, IH1.
      split; [now rewrite Hfile | now constructor].
    + unfold Libc.fgets in E. destruct file; [| discriminate].
      split; [reflexivity | constructor].
Qed.

(** X3: the [fgets] loop cuts a file without NUL bytes into buffers of 1 to
    99 bytes and loses nothing: the buffers, put end to end, are the
    file.  A line longer than the buffer is therefore delivered in
    pieces. *)
Theorem buffers_partition_the_file :
  forall file : string,
    no_byte Libc.NUL file = true ->
    String.concat EmptyString (file_lines file) = file /\
    Forall (fun line => (1 <= String.length line <= 99)%nat)
           (file_lines file).
Proof.
  intros file Hnul. unfold file_lines.
  now apply file_lines_from_buffers.
Qed.

Lemma buffers_witness :
  no_byte Libc.NUL (line_wa ++ line_tn) = true /\
  String.concat EmptyString (file_lines (line_wa ++ line_tn))
  = (line_wa ++ line_tn)%string.
Proof.
  assert (H : no_byte Libc.NUL (line_wa ++ line_tn) = true)
    by (vm_compute; reflexivity).
  split; [exact H |].
  exact (proj1 (buffers_partition_the_file (line_wa ++ line_tn)%string H)).
Defined.

(** ** Files end to end *)

Lemma fgets_read_before_newline (room : nat) (body after : string) :
  Libc.fgets_read room
    ((body ++ String Libc.LF EmptyString) ++ after)%string =
  (fst (Libc.fgets_read room (body ++ String Libc.LF EmptyString)),
   (snd (Libc.fgets_read room (body ++ String Libc.LF EmptyString))
    ++ after)%string).
Proof.
  revert room. induction body as [| c body IH]; intros room.
  - destruct room; reflexivity.
  - destruct room as [| room]; [reflexivity |].
    simpl. destruct (Ascii.eqb c Libc.LF); [reflexivity |].
    rewrite IH.
    destruct (Libc.fgets_read room (body ++ String Libc.LF EmptyString));
      reflexivity.
Qed.

Lemma fgets_before_newline (body after : string) :
  Libc.fgets line_sz ((body ++ String Libc.LF EmptyString) ++ after)%string =
  match Libc.fgets line_sz (body ++ String Libc.LF EmptyString)%string with
  | Some (line, rest) => Some (line, (rest ++ after)%string)
  | None => None
  end.
Proof.
  unfold Libc.fgets. rewrite fgets_read_before_newline.
  assert (Hne : exists c s,
             (body ++ String Libc.LF EmptyString)%string = String c s)
    by (destruct body; simpl; eauto).
  destruct Hne as (c & s & ->). cbn [append].
  destruct (Libc.fgets_read (line_sz - 1) (String c s)); reflexivity.
Qed.

Lemma suffix_ends_with_newline (line rest body : string) :
  (line ++ rest)%string = (body ++ String Libc.LF EmptyString)%string ->
  rest = EmptyString \/
  exists body', rest = (body' ++ String Libc.LF EmptyString)%string.
Proof.
  revert body. induction line as [| c line IH]; intros body H.
  - right. now exists body.
  - destruct body as [| c' body]; simpl in H.
    + injection H as _ H. destruct line; [| discriminate].
      left. exact H.
    + injection H as _ H. now apply IH with body.
Qed.

Lemma file_lines_append (n : nat) (file after : string) :
  (String.length file <= n)%nat ->
  file = EmptyString \/
  (exists body, file = (body ++ String Libc.LF EmptyString)%string) ->
  file_lines (file ++ after) = file_lines file ++ file_lines after.
Proof.
  revert file. induction n as [| n IH]; intros file Hlen Hend.
  - destruct file; [reflexivity | simpl in Hlen; lia].
  - destruct Hend as [-> | [body ->]]; [reflexivity |].
    rewrite (file_lines_step (_ ++ after)),
            (file_lines_step (body ++ String Libc.LF EmptyString)).
    destruct (Libc.fgets line_sz (body ++ String Libc.LF EmptyString))
      as [[line rest] |] eqn:E; [| destruct body; discriminate].
    pose proof (fgets_length _ _ _ E) as Hlt.
    destruct (fgets_split _ _ _ E) as [Hfile _].
    rewrite fgets_before_newline, E. cbn [app]. f_equal. apply IH; [lia |].
    symmetry in Hfile. now apply suffix_ends_with_newline in Hfile.
Qed.

(** X4: when a file ends with a newline, analyzing it and then a second
    file is analyzing the two put end to end: where the input is cut into
    files makes no difference to the table. *)
Theorem files_end_to_end :
  forall (atof : string -> Q) (body after : string) (states : table),
    analyze_file atof
      ((body ++ String Libc.LF EmptyString) ++ after)%string states =
    (states' <- analyze_file atof
                  (body ++ String Libc.LF EmptyString)%string states ;;
     analyze_file atof after states').
Proof.
  intros atof body after states. unfold analyze_file.
  rewrite !analyze_file_loop_lines.
  fold (file_lines ((body ++ String Libc.LF EmptyString) ++ after)).
  fold (file_lines (body ++ String Libc.LF EmptyString)).
  rewrite (file_lines_append (String.length
                                (body ++ String Libc.LF EmptyString)))
    by (auto; right; now exists body).
  rewrite decode_lines_app.
  destruct (decode_lines atof
              (file_lines (body ++ String Libc.LF EmptyString)))
    as [rs1 |]; [| reflexivity].
  simpl. rewrite analyze_file_loop_lines. fold (file_lines after).
  destruct (decode_lines atof (file_lines after)) as [rs2 |];
    [| reflexivity].
  simpl. unfold consume_all. now rewrite fold_left_app.
Qed.

(** ** What the tokenizer delivers *)

Lemma is_delim_delims (c : ascii) :
  Libc.is_delim delims c = Ascii.eqb c Libc.TAB || Ascii.eqb c Libc.LF.
Proof. unfold delims. simpl. now rewrite orb_false_r. Qed.

Lemma span_token_free (s t saved : string) :
  Libc.span_token delims s = (t, saved) ->
  no_byte Libc.TAB t = true /\ no_byte Libc.LF t = true.
Proof.
  revert t saved. induction s as [| c s IH]; intros t saved H;
    cbn [Libc.span_token] in H.
  - injection H as <- _. now split.
  - destruct (Libc.is_delim delims c) eqn:Ec.
    + injection H as <- _. now split.
    + destruct (Libc.span_token delims s) as [t' saved'].
      injection H as <- _. destruct (IH _ _ eq_refl) as [Ht Hl].
      rewrite is_delim_delims in Ec. apply orb_false_iff in Ec.
      destruct Ec as [E1 E2]. simpl. now rewrite E1, E2, Ht, Hl.
Qed.

Lemma skip_delims_head (s : string) (c : ascii) (s' : string) :
  Libc.skip_delims delims s = String c s' ->
  Libc.is_delim delims c = false.
Proof.
  induction s as [| c0 s IH]; cbn [Libc.skip_delims]; [discriminate |].
  destruct (Libc.is_delim delims c0) eqn:E; [exact IH |].
  intros [= <- _]. exact E.
Qed.

Lemma strtok_well_delimited (s tok saved : string) :
  Libc.strtok delims s = Some (tok, saved) -> well_delimited tok.
Proof.
  unfold Libc.strtok. intros H.
  destruct (Libc.skip_delims delims s) as [| c s'] eqn:E; [discriminate |].
  apply skip_delims_head in E.
  assert (Hp : Libc.span_token delims (String c s') = (tok, saved))
    by congruence.
  pose proof (span_token_free _ _ _ Hp) as Hfree.
  cbn [Libc.span_token] in Hp. rewrite E in Hp.
  destruct (Libc.span_token delims s') as [t' saved'].
  injection Hp as <- _. split; [discriminate | exact Hfree].
Qed.

Lemma tokens_from_well_delimited (fuel : nat) (s : string) :
  Forall well_delimited (tokens_from fuel s).
Proof.
  revert s. induction fuel as [| fuel IH]; intros s; simpl; [constructor |].
  destruct (Libc.strtok delims s) as [[tok saved] |] eqn:E; [| constructor].
  constructor; [now apply strtok_well_delimited in E | apply IH].
Qed.

Lemma nth_nulls {A : Type} (i k : nat) :
  nth i (repeat (@None A) k) None = None.
Proof.
  revert i. induction k as [| k IH]; intros [| i]; simpl; auto.
Qed.

Lemma slot_holds_token (i : nat) (l : list string) (k : nat) (tok : string) :
  nth i (map Some l ++ repeat None k) None = Some tok ->
  nth_error l i = Some tok.
Proof.
  revert i. induction l as [| y l IH]; intros i H.
  - simpl in H. rewrite nth_nulls in H. discriminate.
  - destruct i as [| i]; simpl in *; [exact H | now apply IH].
Qed.

Lemma nth_error_firstn {A : Type} (n i : nat) (l : list A) (x : A) :
  nth_error (firstn n l) i = Some x -> nth_error l i = Some x.
Proof.
  revert n i. induction l as [| y l IH]; intros [| n] [| i] H;
    simpl in *; try discriminate; try exact H.
  now apply IH with n.
Qed.

Lemma tokenize_slot (line : string) (i : nat) (tok : string) :
  nth i (tokenize line) None = Some tok ->
  nth_error (tokens line) i = Some tok.
Proof.
  rewrite tokenize_tokens. intros H. apply slot_holds_token in H.
  now apply nth_error_firstn in H.
Qed.

(** X5: [tokenList] keeps its nine slots; a slot that the tokenizer wrote
    holds the token of the same index; and every token is non-empty and
    free of tabs and newlines, so that a run of separators counts as one and
    an empty field of the line is not a token. *)
Theorem tokenizer_slots_and_tokens :
  forall line : string,
    List.length (tokenize line) = 9%nat /\
    (forall i tok,
        nth i (tokenize line) None = Some tok ->
        nth_error (tokens line) i = Some tok) /\
    Forall well_delimited (tokens line).
Proof.
  intros line. split; [| split].
  - rewrite tokenize_tokens, length_app, length_map, repeat_length,
      length_firstn. lia.
  - intros i tok. apply tokenize_slot.
  - apply tokens_from_well_delimited.
Qed.

(** ** Lines in the documented format *)

Lemma byte_not_delim (c : ascii) :
  negb (Ascii.eqb c Libc.TAB) = true -> negb (Ascii.eqb c Libc.LF) = true ->
  Libc.is_delim delims c = false.
Proof.
  intros H1 H2. apply negb_true_iff in H1, H2.
  now rewrite is_delim_delims, H1, H2.
Qed.

Lemma span_token_field (f : string) (d : ascii) (rest : string) :
  no_byte Libc.TAB f = true -> no_byte Libc.LF f = true ->
  Libc.is_delim delims d = true ->
  Libc.span_token delims (f ++ String d rest) = (f, rest).
Proof.
  intros Ht Hl Hd. induction f as [| c f IH]; cbn [append Libc.span_token].
  - now rewrite Hd.
  - simpl in Ht, Hl. apply andb_true_iff in Ht, Hl.
    destruct Ht as [Hc1 Ht], Hl as [Hc2 Hl].
    rewrite (byte_not_delim c Hc1 Hc2), (IH Ht Hl). reflexivity.
Qed.

Lemma strtok_field (f : string) (d : ascii) (rest : string) :
  well_delimited f ->
  Libc.is_delim delims d = true ->
  Libc.strtok delims (f ++ String d rest) = Some (f, rest).
Proof.
  intros (Hne & Ht & Hl) Hd. unfold Libc.strtok.
  destruct f as [| c f]; [congruence |].
  pose proof (span_token_field (String c f) d rest Ht Hl Hd) as Hspan.
  simpl in Ht, Hl. apply andb_true_iff in Ht, Hl.
  destruct Ht as [Hc1 _], Hl as [Hc2 _].
  cbn [append Libc.skip_delims]. rewrite (byte_not_delim c Hc1 Hc2).
  now rewrite <- Hspan.
Qed.

Lemma tokens_field (f : string) (d : ascii) (rest : string) :
  well_delimited f ->
  Libc.is_delim delims d = true ->
  tokens (f ++ String d rest) = f :: tokens rest.
Proof.
  intros Hf Hd. now rewrite tokens_step, strtok_field.
Qed.

Lemma tokens_tsv (fields : list string) :
  Forall well_delimited fields -> tokens (tsv fields) = fields.
Proof.
  induction 1 as [| f fields Hf _ IH]; [reflexivity |].
  unfold tsv in *. destruct fields as [| g fields].
  - cbn [String.concat]. now rewrite tokens_field.
  - change (String.concat (String Libc.TAB EmptyString) (f :: g :: fields))
      with (f ++ String Libc.TAB
              (String.concat (String Libc.TAB EmptyString) (g :: fields)))%string.
    rewrite append_assoc_string. cbn [append].
    now rewrite tokens_field, IH.
Qed.

(** X6: on a line in the documented format, fields that are non-empty and
    free of tabs and newlines, joined by tabs and ended by a newline, the
    tokens are the fields; with nine fields, [tokenList] holds exactly
    them. *)
Theorem tokens_of_formatted_line :
  forall fields : list string,
    Forall well_delimited fields ->
    tokens (tsv fields) = fields /\
    (List.length fields = 9%nat -> tokenize (tsv fields) = map Some fields).
Proof.
  intros fields Hf. pose proof (tokens_tsv fields Hf) as Ht.
  split; [exact Ht |].
  intros Hnine. rewrite tokenize_full by (rewrite Ht; lia).
  rewrite Ht, firstn_all2 by lia. reflexivity.
Qed.

Lemma formatted_line_witness :
  Forall well_delimited
    ["CA"; "1000000"; "gh1"; "50"; "0"; "10"; "0"; "101325"; "300.0"] /\
  tokens line_ca_1
  = ["CA"; "1000000"; "gh1"; "50"; "0"; "10"; "0"; "101325"; "300.0"].
Proof.
  assert (H : Forall well_delimited
                ["CA"; "1000000"; "gh1"; "50"; "0"; "10"; "0"; "101325";
                 "300.0"])
    by (repeat constructor; discriminate).
  split; [exact H |].
  exact (proj1 (tokens_of_formatted_line _ H)).
Defined.

(** ** The state code *)

Lemma substring_two_length (s : string) :
  s <> EmptyString ->
  (1 <= String.length (substring 0 2 s) <= 2)%nat.
Proof.
  intros Hne. destruct s as [| c [| c' s]]; [congruence | simpl; lia |].
  simpl. destruct s; simpl; lia.
Qed.

(** X7: the code of a decoded record is the first two bytes of the first
    token of the line, or its single byte; whatever follows them in the
    token plays no part, so that lines whose first tokens begin alike are
    counted under one code. *)
Theorem code_is_first_two_bytes :
  forall (atof : string -> Q) (line : string) (state : climate_info),
    decode atof (tokenize line) = Ok state ->
    exists t0 rest,
      tokens line = t0 :: rest /\
      code state = substring 0 2 t0 /\
      (1 <= String.length (code state) <= 2)%nat.
Proof.
  intros atof line state H. apply decode_fields in H.
  destruct H as (t0 & t1 & t3 & t4 & t5 & t6 & t7 & t8 & H).
  destruct H as (H0 & _ & _ & _ & _ & _ & _ & _ & ->).
  apply tokenize_slot in H0.
  pose proof (tokens_from_well_delimited (String.length line) line) as Hw.
  fold (tokens line) in Hw.
  destruct (tokens line) as [| t rest]; [discriminate |].
  simpl in H0. injection H0 as ->.
  exists t0, rest. split; [reflexivity | split; [reflexivity |]].
  inversion Hw as [| ? ? [Hne _] _]; subst.
  now apply substring_two_length.
Qed.

Lemma code_witness :
  decode Libc.atof_decimal (tokenize line_ca_3) = Ok ca_3 /\
  code ca_3 = "CA" /\
  exists t0 rest,
    tokens line_ca_3 = t0 :: rest /\
    code ca_3 = substring 0 2 t0 /\
    (1 <= String.length (code ca_3) <= 2)%nat.
Proof.
  assert (H : decode Libc.atof_decimal (tokenize line_ca_3) = Ok ca_3)
    by (vm_compute; reflexivity).
  split; [exact H | split; [reflexivity |]].
  exact (code_is_first_two_bytes Libc.atof_decimal line_ca_3 ca_3 H).
Defined.

(** ** What a record leaves alone *)

(** X8: in any table, consuming a record leaves the entries of every other
    code as they are and where they are: only the entry of the record's own
    code is updated or made. *)
Theorem consume_keeps_other_entries :
  forall (states : table) (state : climate_info),
    other_entries (code state) (consume states state) =
    other_entries (code state) states.
Proof.
  intros states state. unfold other_entries, same_code.
  induction states as [| [a |] rest IH]; simpl.
  - reflexivity.
  - destruct (String.eqb (code a) (code state)) eqn:E; simpl.
    + now rewrite update_code, E.
    + now rewrite E, IH.
  - now rewrite String.eqb_refl.
Qed.

(** ** The shape of the table *)

Lemma consume_all_length (rs : list climate_info) (states : table) :
  List.length (consume_all states rs) = List.length states.
Proof.
  revert states. induction rs as [| r rs IH]; intros states; simpl.
  - reflexivity.
  - now rewrite IH, consume_length.
Qed.

Lemma indexed_all_entries (f : string -> option climate_info)
    (T : list string) :
  (forall c, In c T -> exists a, f c = Some a /\ code a = c) ->
  map f T = map Some (entries (map f T)).
Proof.
  induction T as [| c T IH]; intros Hf; simpl; [reflexivity |].
  destruct (Hf c (or_introl eq_refl)) as [a [Ha _]]. rewrite Ha. simpl.
  f_equal. apply IH. intros c' Hc'. apply Hf. now right.
Qed.

(** X9: after any sequence of records the table still has its fifty slots;
    the entries fill the first slots without a gap, the others being NULL;
    and no two entries have the same code, so that the report names no
    state twice. *)
Theorem table_is_a_prefix_of_distinct_codes :
  forall rs : list climate_info,
    let states := consume_all init_states rs in
    List.length states = NUM_STATES /\
    states =
      map Some (entries states)
      ++ repeat None (NUM_STATES - List.length (entries states)) /\
    NoDup (codes states).
Proof.
  intros rs states. subst states. unfold init_states. split; [| split].
  - now rewrite consume_all_length, repeat_length.
  - rewrite <- summary_length, entries_consume_all.
    rewrite (consume_all_summary NUM_STATES rs). f_equal.
    unfold summary. apply indexed_all_entries.
    intros c Hc. exact (summary_entry NUM_STATES rs c Hc).
  - rewrite codes_consume_all. apply NoDup_firstn, first_seen_NoDup.
Qed.

(** ** No record counted twice, none lost among the tracked codes *)

Lemma indicator_sum (x : string) (T : list string) :
  NoDup T ->
  list_sum (map (fun c => if String.eqb x c then 1 else 0)%nat T) =
  (if existsb (String.eqb x) T then 1 else 0)%nat.
Proof.
  induction 1 as [| c T Hc _ IH]; simpl; [reflexivity |].
  rewrite IH. destruct (String.eqb_spec x c) as [-> | _]; simpl.
  - destruct (existsb (String.eqb c) T) eqn:E; [| reflexivity].
    apply existsb_eqb_In in E. contradiction.
  - reflexivity.
Qed.

Lemma list_sum_pointwise (g h : string -> nat) (T : list string) :
  list_sum (map (fun c => g c + h c)%nat T) =
  (list_sum (map g T) + list_sum (map h T))%nat.
Proof. induction T as [| c T IH]; simpl; [reflexivity | rewrite IH; lia]. Qed.

Lemma records_partition (T : list string) (rs : list climate_info) :
  NoDup T ->
  list_sum (map (fun c => List.length (records_of c rs)) T) =
  List.length (with_code_in T rs).
Proof.
  intros Hnd. induction rs as [| r rs IH].
  - simpl. clear Hnd. induction T as [| c T IHT]; simpl; [reflexivity |].
    exact IHT.
  - transitivity
      (list_sum (map (fun c => (if String.eqb (code r) c then 1 else 0)
                               + List.length (records_of c rs))%nat T)).
    + f_equal. apply map_ext. intros c. simpl. unfold same_code.
      destruct (String.eqb (code r) c); reflexivity.
    + rewrite list_sum_pointwise, IH, (indicator_sum _ _ Hnd).
      unfold with_code_in. simpl.
      destruct (existsb (String.eqb (code r)) T); reflexivity.
Qed.

Lemma Zsum_of_nat (l : list nat) :
  Zsum (map Z.of_nat l) = Z.of_nat (list_sum l).
Proof.
  induction l as [| n l IH]; simpl; [reflexivity |].
  unfold Zsum in *. simpl. rewrite IH. lia.
Qed.

Lemma with_code_in_all (cs : list string) (rs : list climate_info) :
  (forall r, In r rs -> In (code r) cs) -> with_code_in cs rs = rs.
Proof.
  intros Hall. unfold with_code_in. induction rs as [| r rs IH]; simpl.
  - reflexivity.
  - assert (E : existsb (String.eqb (code r)) cs = true)
      by (apply existsb_eqb_In, Hall; now left).
    rewrite E, IH; [reflexivity |]. intros r' Hr'. apply Hall. now right.
Qed.

(** X10: for fewer than 2^64 decoded records, the record counts of the
    entries add up to the number of records whose code the table tracks;
    when the input has at most fifty distinct codes that is the number of
    all records, none being lost or counted twice. *)
Theorem record_counts_add_up :
  forall rs : list climate_info,
    Forall fresh_record rs ->
    Z.of_nat (List.length rs) < 2 ^ 64 ->
    let states := consume_all init_states rs in
    Zsum (map num_records (entries states)) =
      Z.of_nat (List.length (with_code_in (codes states) rs)) /\
    ((List.length (first_seen (map code rs)) <= NUM_STATES)%nat ->
     Zsum (map num_records (entries states)) = Z.of_nat (List.length rs)).
Proof.
  intros rs HF Hlen states.
  assert (Hcount : forall a, In a (entries states) ->
            num_records a =
            Z.of_nat (List.length (records_of (code a) rs))).
  { intros a Hin. unfold states, init_states in Hin.
    apply entry_accumulates in Hin.
    assert (HFm : Forall fresh_record (records_of (code a) rs)).
    { apply Forall_forall. intros r Hr. apply filter_In in Hr.
      destruct Hr as [Hr _]. revert r Hr. now apply Forall_forall. }
    rewrite (accumulate_count _ _ HFm Hin). unfold wrap_unsigned.
    pose proof (records_of_length (code a) rs). apply Z.mod_small. lia. }
  assert (Hsum : Zsum (map num_records (entries states)) =
                 Z.of_nat (List.length (with_code_in (codes states) rs))).
  { rewrite (map_ext_in _ _ _ Hcount).
    rewrite <- (map_map code
                  (fun c => Z.of_nat (List.length (records_of c rs)))).
    fold (codes states).
    rewrite <- (map_map (fun c => List.length (records_of c rs)) Z.of_nat).
    rewrite Zsum_of_nat, records_partition; [reflexivity |].
    unfold states, init_states. rewrite codes_consume_all.
    apply NoDup_firstn, first_seen_NoDup. }
  split; [exact Hsum |].
  intros Hfew. rewrite Hsum, with_code_in_all; [reflexivity |].
  intros r Hr. unfold states, init_states.
  rewrite codes_consume_all, firstn_all2 by assumption.
  apply first_seen_In. now apply in_map.
Qed.

Lemma record_counts_witness :
  Forall fresh_record [ca_1; wa_1; ca_2] /\
  Zsum (map num_records (entries (consume_all init_states [ca_1; wa_1; ca_2])))
  = 3.
Proof.
  assert (HF : Forall fresh_record [ca_1; wa_1; ca_2])
    by (repeat constructor).
  assert (Hlen : Z.of_nat (List.length [ca_1; wa_1; ca_2]) < 2 ^ 64)
    by (vm_compute; reflexivity).
  assert (Hfew : (List.length (first_seen (map code [ca_1; wa_1; ca_2]))
                  <= NUM_STATES)%nat)
    by (vm_compute; lia).
  split; [exact HF |].
  exact (proj2 (record_counts_add_up [ca_1; wa_1; ca_2] HF Hlen) Hfew).
Defined.

(** ** The average lies between the extremes *)

Lemma fold_sum_le (M : Q) (l : list Q) (acc K : Q) :
  Forall (fun t => (t <= M)%Q) l ->
  (acc <= K)%Q ->
  (fold_left Qplus l acc <= K + inject_Z (Z.of_nat (List.length l)) * M)%Q.
Proof.
  intros HF. revert acc K. induction HF as [| t l Ht _ IH]; intros acc K Hacc.
  - cbn [fold_left List.length]. change (inject_Z (Z.of_nat 0)) with 0%Q. lra.
  - cbn [fold_left List.length].
    eapply Qle_trans; [apply (IH (acc + t)%Q (K + M)%Q); lra |].
    rewrite Nat2Z.inj_succ. unfold Z.succ. rewrite inject_Z_plus.
    apply Qle_lteq. right. ring.
Qed.

Lemma fold_sum_ge (M : Q) (l : list Q) (acc K : Q) :
  Forall (fun t => (M <= t)%Q) l ->
  (K <= acc)%Q ->
  (K + inject_Z (Z.of_nat (List.length l)) * M <= fold_left Qplus l acc)%Q.
Proof.
  intros HF. revert acc K. induction HF as [| t l Ht _ IH]; intros acc K Hacc.
  - cbn [fold_left List.length]. change (inject_Z (Z.of_nat 0)) with 0%Q. lra.
  - cbn [fold_left List.length].
    eapply Qle_trans; [| apply (IH (acc + t)%Q (K + M)%Q); lra].
    rewrite Nat2Z.inj_succ. unfold Z.succ. rewrite inject_Z_plus.
    apply Qle_lteq. right. ring.
Qed.

Lemma total_le (M : Q) (l : list climate_info) :
  Forall (fun y => (temp y <= M)%Q) l ->
  (total temp l <= inject_Z (Z.of_nat (List.length l)) * M)%Q.
Proof.
  intros HF. destruct l as [| r0 l];
    [cbn [total List.length]; change (inject_Z (Z.of_nat 0)) with 0%Q; lra |].
  inversion HF as [| ? ? H0 Hl]; subst. unfold total.
  eapply Qle_trans.
  - apply (fold_sum_le M (map temp l) (temp r0) M);
      [now apply Forall_map | exact H0].
  - rewrite length_map. cbn [List.length].
    rewrite Nat2Z.inj_succ. unfold Z.succ. rewrite inject_Z_plus.
    apply Qle_lteq. right. ring.
Qed.

Lemma total_ge (M : Q) (l : list climate_info) :
  l <> [] ->
  Forall (fun y => (M <= temp y)%Q) l ->
  (inject_Z (Z.of_nat (List.length l)) * M <= total temp l)%Q.
Proof.
  intros Hne HF. destruct l as [| r0 l]; [congruence |].
  inversion HF as [| ? ? H0 Hl]; subst. unfold total.
  eapply Qle_trans.
  - cbn [List.length].
    rewrite Nat2Z.inj_succ. unfold Z.succ. rewrite inject_Z_plus.
    assert (E : ((inject_Z (Z.of_nat (List.length l)) + inject_Z 1) * M ==
                 M + inject_Z (Z.of_nat (List.length (map temp l))) * M)%Q)
      by (rewrite length_map; ring).
    apply Qle_lteq. right. exact E.
  - apply (fold_sum_ge M (map temp l) (temp r0) M);
      [now apply Forall_map | exact H0].
Qed.

Lemma last_maximum_bounds (l pre : list climate_info) (x : climate_info)
    (post : list climate_info) :
  last_maximum l pre x post ->
  Forall (fun y => (temp y <= temp x)%Q) l.
Proof.
  intros (-> & Hpre & Hpost). apply Forall_app. split; [exact Hpre |].
  constructor; [apply Qle_refl |].
  eapply Forall_impl; [| exact Hpost]. intros y Hy. now apply Qlt_le_weak.
Qed.

Lemma last_minimum_bounds (l pre : list climate_info) (x : climate_info)
    (post : list climate_info) :
  last_minimum l pre x post ->
  Forall (fun y => (temp x <= temp y)%Q) l.
Proof.
  intros (-> & Hpre & Hpost). apply Forall_app. split; [exact Hpre |].
  constructor; [apply Qle_refl |].
  eapply Forall_impl; [| exact Hpost]. intros y Hy. now apply Qlt_le_weak.
Qed.

(** X11: in every block of the report of fewer than 2^64 decoded records,
    the average temperature lies between the minimum and the maximum
    temperature of the block. *)
Theorem average_between_extremes :
  forall (rs : list climate_info) (b : state_report),
    Forall fresh_record rs ->
    Z.of_nat (List.length rs) < 2 ^ 64 ->
    In b (snd (print_report (consume_all init_states rs))) ->
    (r_min_temp b <= r_avg_temp b)%Q /\ (r_avg_temp b <= r_max_temp b)%Q.
Proof.
  intros rs b HF Hlen Hin. simpl in Hin.
  apply in_map_iff in Hin. destruct Hin as [a [<- Hin]].
  unfold init_states in Hin. apply entry_accumulates in Hin.
  cbn [report_block r_min_temp r_avg_temp r_max_temp].
  assert (HFm : Forall fresh_record (records_of (code a) rs)).
  { apply Forall_forall. intros r Hr. apply filter_In in Hr.
    destruct Hr as [Hr _]. revert r Hr. now apply Forall_forall. }
  pose proof (accumulate_count _ _ HFm Hin) as Hcount.
  pose proof (records_of_length (code a) rs) as Hle.
  assert (Hne : records_of (code a) rs <> [])
    by (destruct (records_of (code a) rs); [discriminate | congruence]).
  assert (Hpos : (0 < List.length (records_of (code a) rs))%nat)
    by (destruct (records_of (code a) rs); [congruence | simpl; lia]).
  unfold wrap_unsigned in Hcount. rewrite Z.mod_small in Hcount by lia.
  rewrite Hcount, (accumulate_total temp _ a update_temp Hin).
  assert (Hn : (0 < inject_Z (Z.of_nat (List.length (records_of (code a) rs))))%Q).
  { unfold Qlt. simpl. lia. }
  destruct (accumulate_max _ _ HFm Hin) as (p1 & x1 & q1 & Hmax & -> & _).
  destruct (accumulate_min _ _ HFm Hin) as (p2 & x2 & q2 & Hmin & -> & _).
  split.
  - apply Qle_shift_div_l; [exact Hn |]. rewrite Qmult_comm.
    apply total_ge; [exact Hne | now apply last_minimum_bounds in Hmin].
  - apply Qle_shift_div_r; [exact Hn |]. rewrite Qmult_comm.
    apply total_le. now apply last_maximum_bounds in Hmax.
Qed.

Lemma average_between_witness :
  Forall fresh_record [ca_1; ca_2; ca_3] /\
  In (report_block (hd blank (entries (consume_all init_states
                                         [ca_1; ca_2; ca_3]))))
     (snd (print_report (consume_all init_states [ca_1; ca_2; ca_3]))) /\
  (r_avg_temp (report_block (hd blank (entries (consume_all init_states
                                                  [ca_1; ca_2; ca_3]))))
   <= r_max_temp (report_block (hd blank (entries (consume_all init_states
                                                  [ca_1; ca_2; ca_3])))))%Q.
Proof.
  assert (HF : Forall fresh_record [ca_1; ca_2; ca_3])
    by (repeat constructor).
  assert (Hlen : Z.of_nat (List.length [ca_1; ca_2; ca_3]) < 2 ^ 64)
    by (vm_compute; reflexivity).
  assert (Hin : In (report_block (hd blank (entries (consume_all init_states
                                                [ca_1; ca_2; ca_3]))))
                   (snd (print_report (consume_all init_states
                                         [ca_1; ca_2; ca_3]))))
    by (vm_compute; left; reflexivity).
  split; [exact HF | split; [exact Hin |]].
  exact (proj2 (average_between_extremes [ca_1; ca_2; ca_3] _ HF Hlen Hin)).
Defined.

(** ** Lightning strikes and snow cover *)

Lemma wrap_signed_in_int (z : Z) : in_int (wrap_signed 32 z).
Proof.
  unfold in_int, wrap_signed.
  pose proof (Z.mod_pos_bound (z + 2 ^ (32 - 1)) (2 ^ 32) eq_refl) as H.
  change (2 ^ (32 - 1)) with (2 ^ 31) in *.
  change (2 ^ 32) with (2 * 2 ^ 31) in *. lia.
Qed.

Lemma wrap_signed_small (z : Z) : in_int z -> wrap_signed 32 z = z.
Proof.
  unfold in_int, wrap_signed. intros H.
  change (2 ^ (32 - 1)) with (2 ^ 31).
  rewrite Z.mod_small; [lia |].
  change (2 ^ 32) with (2 * 2 ^ 31). lia.
Qed.

Lemma wrap_signed_add (x y : Z) :
  wrap_signed 32 (wrap_signed 32 x + y) = wrap_signed 32 (x + y).
Proof.
  unfold wrap_signed. f_equal.
  replace ((x + 2 ^ (32 - 1)) mod 2 ^ 32 - 2 ^ (32 - 1) + y + 2 ^ (32 - 1))
    with ((x + 2 ^ (32 - 1)) mod 2 ^ 32 + y) by lia.
  rewrite Z.add_mod_idemp_l by (apply Z.pow_nonzero; lia).
  f_equal. lia.
Qed.

Lemma fold_update_wrapped (field : climate_info -> Z)
    (l : list climate_info) (a : climate_info) :
  (forall x y, field (update x y) = wrap_signed 32 (field x + field y)) ->
  in_int (field a) ->
  field (fold_left update l a) =
  wrap_signed 32 (field a + Zsum (map field l)).
Proof.
  intros Hfield. revert a. induction l as [| r l IH]; intros a Ha.
  - simpl. unfold Zsum. simpl. rewrite Z.add_0_r.
    symmetry. now apply wrap_signed_small.
  - cbn [fold_left map]. rewrite IH
      by (rewrite Hfield; apply wrap_signed_in_int).
    rewrite Hfield, wrap_signed_add. f_equal. unfold Zsum. simpl. lia.
Qed.

Lemma update_lightning_strikes (a r : climate_info) :
  lightning_strikes (update a r) =
  wrap_signed 32 (lightning_strikes a + lightning_strikes r).
Proof. now rewrite update_fields. Qed.

Lemma update_snow (a r : climate_info) :
  snow (update a r) = wrap_signed 32 (snow a + snow r).
Proof. now rewrite update_fields. Qed.

Lemma accumulate_wrapped (field : climate_info -> Z)
    (l : list climate_info) (a : climate_info) :
  (forall x y, field (update x y) = wrap_signed 32 (field x + field y)) ->
  Forall (fun r => in_int (field r)) l ->
  accumulate l = Some a ->
  field a = wrap_signed 32 (Zsum (map field l)).
Proof.
  intros Hfield HF. destruct l as [| r0 l]; [discriminate |].
  simpl. intros [= <-]. inversion HF; subst.
  now apply fold_update_wrapped.
Qed.

Lemma Zsum_flags (l : list Z) :
  Forall is_flag l -> 0 <= Zsum l <= Z.of_nat (List.length l).
Proof.
  unfold Zsum. induction 1 as [| z l Hz _ IH]; simpl; [lia |].
  destruct Hz as [-> | ->]; lia.
Qed.

Lemma accumulate_flags (field : climate_info -> Z) (rs : list climate_info)
    (c : string) (a : climate_info) :
  (forall x y, field (update x y) = wrap_signed 32 (field x + field y)) ->
  Forall (fun r => is_flag (field r)) rs ->
  Z.of_nat (List.length rs) < 2 ^ 31 ->
  accumulate (records_of c rs) = Some a ->
  field a = Zsum (map field (records_of c rs)).
Proof.
  intros Hfield HF Hlen Hacc.
  assert (Hmine : Forall (fun r => is_flag (field r)) (records_of c rs)).
  { apply Forall_forall. intros r Hr. apply filter_In in Hr.
    destruct Hr as [Hr _]. revert r Hr. now apply Forall_forall. }
  rewrite (accumulate_wrapped field (records_of c rs) a Hfield);
    [| | exact Hacc].
  - apply wrap_signed_small. unfold in_int.
    pose proof (Zsum_flags (map field (records_of c rs))) as Hb.
    rewrite length_map in Hb.
    pose proof (records_of_length c rs) as Hle.
    assert (Forall is_flag (map field (records_of c rs)))
      by (now apply Forall_map).
    specialize (Hb H). lia.
  - eapply Forall_impl; [| exact Hmine].
    intros r [Hr | Hr]; rewrite Hr; unfold in_int; lia.
Qed.

(** X12: when every record carries 0 or 1 in its lightning and snow
    fields and there are fewer than 2^31 records, the lightning-strike
    count and the snow-cover count of an entry are the numbers of records
    of its code that carry the flag: the sums of the flags, no
    wrap-around of [int] being reached. *)
Theorem strike_and_snow_counts :
  forall (rs : list climate_info) (a : climate_info),
    Forall (fun r => is_flag (lightning_strikes r) /\ is_flag (snow r)) rs ->
    Z.of_nat (List.length rs) < 2 ^ 31 ->
    In a (entries (consume_all init_states rs)) ->
    lightning_strikes a =
      Zsum (map lightning_strikes (records_of (code a) rs)) /\
    snow a = Zsum (map snow (records_of (code a) rs)).
Proof.
  intros rs a HF Hlen Hin. unfold init_states in Hin.
  apply entry_accumulates in Hin. split.
  - apply accumulate_flags;
      [exact update_lightning_strikes | | exact Hlen | exact Hin].
    eapply Forall_impl; [| exact HF]. now intros r [H _].
  - apply accumulate_flags; [exact update_snow | | exact Hlen | exact Hin].
    eapply Forall_impl; [| exact HF]. now intros r [_ H].
Qed.

Lemma strike_and_snow_witness :
  Forall (fun r => is_flag (lightning_strikes r) /\ is_flag (snow r))
         [ca_1; ca_2; ca_3] /\
  lightning_strikes (hd blank (entries (consume_all init_states
                                          [ca_1; ca_2; ca_3]))) = 2.
Proof.
  assert (HF : Forall (fun r => is_flag (lightning_strikes r) /\
                                is_flag (snow r)) [ca_1; ca_2; ca_3]).
  { repeat (apply Forall_cons; [split; vm_compute; auto |]).
    apply Forall_nil. }
  assert (Hlen : Z.of_nat (List.length [ca_1; ca_2; ca_3]) < 2 ^ 31)
    by (vm_compute; reflexivity).
  assert (Hin : In (hd blank (entries (consume_all init_states
                                         [ca_1; ca_2; ca_3])))
                   (entries (consume_all init_states [ca_1; ca_2; ca_3])))
    by (vm_compute; left; reflexivity).
  split; [exact HF |].
  exact (proj1 (strike_and_snow_counts [ca_1; ca_2; ca_3] _ HF Hlen Hin)).
Defined.

(** ** Dates *)

Lemma Qtrunc_thousandth (q : Q) (n : Z) :
  (q == inject_Z n)%Q -> 0 <= n -> Qtrunc (q / 1000) = n / 1000.
Proof.
  destruct q as [a d]. unfold Qeq, Qtrunc. cbn [Qnum Qden inject_Z].
  intros H Hn. rewrite Z.mul_1_r in H. subst a.
  unfold Qdiv, Qmult. cbn [Qnum Qden Qinv].
  rewrite Z.mul_1_r, Pos2Z.inj_mul, (Z.mul_comm n).
  rewrite Z.quot_mul_cancel_l by lia.
  apply Z.quot_div_nonneg; lia.
Qed.

(** X13: when field 1 reads as a whole number [n] of milliseconds with
    [0 <= n < 2^53], both dates of the decoded record are [n / 1000], the
    whole seconds, the remainder being dropped.  Below [2^53] every whole
    number is a [double], and the quotient by 1000, at least 0.001 short of
    the next whole number, is more than half a step of the doubles of that
    size (at most [2^-9]) away from it: the division in [double] does not
    reach the next second either. *)
Theorem dates_are_whole_seconds :
  forall (atof : string -> Q) (tokenList : list (option string))
         (state : climate_info) (t1 : string) (n : Z),
    decode atof tokenList = Ok state ->
    nth 1 tokenList None = Some t1 ->
    (atof t1 == inject_Z n)%Q ->
    0 <= n < 2 ^ 53 ->
    max_temp_date state = n / 1000 /\ min_temp_date state = n / 1000.
Proof.
  intros atof tokenList state t1 n Hdec H1 Hq Hn.
  apply decode_fields in Hdec.
  destruct Hdec as (t0 & t1' & t3 & t4 & t5 & t6 & t7 & t8 & H).
  destruct H as (_ & H1' & _ & _ & _ & _ & _ & _ & ->).
  rewrite H1 in H1'. injection H1' as <-.
  cbn [max_temp_date min_temp_date]. unfold to_long.
  rewrite (Qtrunc_thousandth _ n Hq) by lia.
  assert (Hr : wrap_signed 64 (n / 1000) = n / 1000).
  { unfold wrap_signed. change (2 ^ (64 - 1)) with (2 ^ 63).
    assert (0 <= n / 1000 < 2 ^ 63).
    { split; [apply Z.div_pos; lia |].
      apply Z.div_lt_upper_bound; lia. }
    rewrite Z.mod_small; [lia |].
    change (2 ^ 64) with (2 * 2 ^ 63). lia. }
  now rewrite Hr.
Qed.

Lemma dates_witness :
  decode Libc.atof_decimal (tokenize line_wa) = Ok wa_1 /\
  max_temp_date wa_1 = 1435510800000 / 1000.
Proof.
  assert (Hdec : decode Libc.atof_decimal (tokenize line_wa) = Ok wa_1)
    by (vm_compute; reflexivity).
  assert (H1 : nth 1 (tokenize line_wa) None = Some "1435510800000")
    by (vm_compute; reflexivity).
  assert (Hq : (Libc.atof_decimal "1435510800000"
                == inject_Z 1435510800000)%Q)
    by (vm_compute; reflexivity).
  assert (Hn : 0 <= 1435510800000 < 2 ^ 53)
    by (split; vm_compute; congruence).
  split; [exact Hdec |].
  exact (proj1 (dates_are_whole_seconds Libc.atof_decimal
                  (tokenize line_wa) wa_1 "1435510800000" 1435510800000
                  Hdec H1 Hq Hn)).
Defined.

(** ** States do not interfere *)

(** X14: an entry is determined by the records of its own code, in their
    order: two inputs that agree on the records of a code, however they
    interleave them with records of other codes, give equal entries for it
    when both track it. *)
Theorem entry_depends_on_own_records :
  forall (rs rs' : list climate_info) (a a' : climate_info),
    In a (entries (consume_all init_states rs)) ->
    In a' (entries (consume_all init_states rs')) ->
    code a' = code a ->
    records_of (code a) rs' = records_of (code a) rs ->
    a' = a.
Proof.
  intros rs rs' a a' Hin Hin' Hcode Hsame. unfold init_states in *.
  apply entry_accumulates in Hin. apply entry_accumulates in Hin'.
  rewrite Hcode, Hsame, Hin in Hin'. now injection Hin'.
Qed.

Lemma own_records_witness :
  In ca_both (entries (consume_all init_states [ca_1; wa_1; ca_2])) /\
  In ca_both (entries (consume_all init_states [wa_1; ca_1; ca_2])).
Proof.
  assert (Hin : In ca_both (entries (consume_all init_states
                                       [ca_1; wa_1; ca_2])))
    by (vm_compute; left; reflexivity).
  assert (Hin' : In (hd blank (tl (entries (consume_all init_states
                                              [wa_1; ca_1; ca_2]))))
                    (entries (consume_all init_states [wa_1; ca_1; ca_2])))
    by (vm_compute; right; left; reflexivity).
  split; [exact Hin |].
  rewrite <- (entry_depends_on_own_records
                [ca_1; wa_1; ca_2] [wa_1; ca_1; ca_2] ca_both _
                Hin Hin' eq_refl eq_refl) at 1.
  exact Hin'.
Defined.

(** ** Kelvin and Fahrenheit *)

(** X15: the conversion never reverses the order of two readings: of two
    decoded records, the one with the lower or equal reading in field 8 has
    the lower or equal temperature, and a strictly higher temperature comes
    from a strictly higher reading.  Two different readings can come out
    equal, which is why no converse is stated. *)
Theorem conversion_keeps_order :
  forall (atof : string -> Q) (tl1 tl2 : list (option string))
         (s1 s2 : climate_info) (k1 k2 : string),
    decode atof tl1 = Ok s1 ->
    decode atof tl2 = Ok s2 ->
    nth 8 tl1 None = Some k1 ->
    nth 8 tl2 None = Some k2 ->
    ((atof k1 <= atof k2)%Q -> (temp s1 <= temp s2)%Q) /\
    ((temp s1 < temp s2)%Q -> (atof k1 < atof k2)%Q).
Proof.
  intros atof tl1 tl2 s1 s2 k1 k2 H1 H2 Hk1 Hk2.
  apply decode_fields in H1, H2.
  destruct H1 as (? & ? & ? & ? & ? & ? & ? & t8 & H1).
  destruct H1 as (_ & _ & _ & _ & _ & _ & _ & H8 & ->).
  destruct H2 as (? & ? & ? & ? & ? & ? & ? & t8' & H2).
  destruct H2 as (_ & _ & _ & _ & _ & _ & _ & H8' & ->).
  rewrite Hk1 in H8. injection H8 as <-.
  rewrite Hk2 in H8'. injection H8' as <-.
  cbn [temp]. unfold kelvin_to_fahrenheit, Qdiv.
  change (/ 5)%Q with (1 # 5)%Q. change 459.67%Q with (45967 # 100)%Q.
  split; intros H; lra.
Qed.

Lemma conversion_order_witness :
  decode Libc.atof_decimal (tokenize line_ca_1) = Ok ca_1 /\
  decode Libc.atof_decimal (tokenize line_ca_3) = Ok ca_3 /\
  (temp ca_1 <= temp ca_3)%Q.
Proof.
  assert (H1 : decode Libc.atof_decimal (tokenize line_ca_1) = Ok ca_1)
    by (vm_compute; reflexivity).
  assert (H3 : decode Libc.atof_decimal (tokenize line_ca_3) = Ok ca_3)
    by (vm_compute; reflexivity).
  assert (Hk1 : nth 8 (tokenize line_ca_1) None = Some "300.0")
    by (vm_compute; reflexivity).
  assert (Hk3 : nth 8 (tokenize line_ca_3) None = Some "310.0")
    by (vm_compute; reflexivity).
  split; [exact H1 | split; [exact H3 |]].
  apply (proj1 (conversion_keeps_order Libc.atof_decimal _ _ ca_1 ca_3
                  "300.0" "310.0" H1 H3 Hk1 Hk3)).
  vm_compute. discriminate.
Defined.

(** ** The order of the records of a code *)

Lemma maximum_permutation (l l' : list climate_info) (a a' : climate_info) :
  Forall fresh_record l -> Forall fresh_record l' ->
  Permutation l l' ->
  accumulate l = Some a -> accumulate l' = Some a' ->
  (max_temp a' == max_temp a)%Q /\ (min_temp a' == min_temp a)%Q.
Proof.
  intros HF HF' HP Ha Ha'.
  destruct (accumulate_max _ _ HF Ha) as (p & x & q & Hx & -> & _).
  destruct (accumulate_max _ _ HF' Ha') as (p' & x' & q' & Hx' & -> & _).
  destruct (accumulate_min _ _ HF Ha) as (u & y & v & Hy & -> & _).
  destruct (accumulate_min _ _ HF' Ha') as (u' & y' & v' & Hy' & -> & _).
  assert (Hin : forall (pre : list climate_info) z post k,
             k = pre ++ z :: post -> In z k)
    by (intros pre z post k ->; apply in_elt).
  pose proof (Hin _ _ _ _ (proj1 Hx)) as Hxin.
  pose proof (Hin _ _ _ _ (proj1 Hx')) as Hxin'.
  pose proof (Hin _ _ _ _ (proj1 Hy)) as Hyin.
  pose proof (Hin _ _ _ _ (proj1 Hy')) as Hyin'.
  apply last_maximum_bounds in Hx, Hx'.
  apply last_minimum_bounds in Hy, Hy'.
  rewrite Forall_forall in Hx, Hx', Hy, Hy'.
  split; apply Qle_antisym.
  - apply Hx. apply Permutation_in with l'; [now symmetry | exact Hxin'].
  - apply Hx'. apply Permutation_in with l; assumption.
  - apply Hy'. apply Permutation_in with l; assumption.
  - apply Hy. apply Permutation_in with l'; [now symmetry | exact Hyin'].
Qed.

(** X16: the order in which the records of a code arrive changes neither
    the record count nor the extreme temperatures of its entry: for two
    inputs of decoded records whose records of a code are the same up to
    order, the entries of that code have the same count, the same maximum
    and the same minimum.  Which record gives its date to an extreme can
    differ. *)
Theorem order_within_a_code_is_immaterial :
  forall (rs rs' : list climate_info) (a a' : climate_info),
    Forall fresh_record rs -> Forall fresh_record rs' ->
    In a (entries (consume_all init_states rs)) ->
    In a' (entries (consume_all init_states rs')) ->
    code a' = code a ->
    Permutation (records_of (code a) rs) (records_of (code a) rs') ->
    num_records a' = num_records a /\
    (max_temp a' == max_temp a)%Q /\ (min_temp a' == min_temp a)%Q.
Proof.
  intros rs rs' a a' HF HF' Hin Hin' Hcode HP. unfold init_states in *.
  apply entry_accumulates in Hin. apply entry_accumulates in Hin'.
  rewrite Hcode in Hin'.
  assert (Hmine : forall l, Forall fresh_record l ->
                    Forall fresh_record (records_of (code a) l)).
  { intros l Hl. apply Forall_forall. intros r Hr. apply filter_In in Hr.
    destruct Hr as [Hr _]. revert r Hr. now apply Forall_forall. }
  pose proof (Hmine _ HF) as Hm. pose proof (Hmine _ HF') as Hm'.
  destruct (maximum_permutation _ _ _ _ Hm Hm' HP Hin Hin') as [Hmax Hmin].
  split; [| split; [exact Hmax | exact Hmin]].
  rewrite (accumulate_count _ _ Hm Hin), (accumulate_count _ _ Hm' Hin').
  now rewrite (Permutation_length HP).
Qed.

Lemma order_witness :
  Forall fresh_record [ca_1; ca_3] /\ Forall fresh_record [ca_3; ca_1] /\
  (max_temp (hd blank (entries (consume_all init_states [ca_3; ca_1])))
   == max_temp (hd blank (entries (consume_all init_states [ca_1; ca_3]))))%Q.
Proof.
  assert (HF : Forall fresh_record [ca_1; ca_3]) by (repeat constructor).
  assert (HF' : Forall fresh_record [ca_3; ca_1]) by (repeat constructor).
  assert (Hin : In (hd blank (entries (consume_all init_states
                                         [ca_1; ca_3])))
                   (entries (consume_all init_states [ca_1; ca_3])))
    by (vm_compute; left; reflexivity).
  assert (Hin' : In (hd blank (entries (consume_all init_states
                                          [ca_3; ca_1])))
                    (entries (consume_all init_states [ca_3; ca_1])))
    by (vm_compute; left; reflexivity).
  assert (HP : Permutation
                 (records_of (code (hd blank (entries (consume_all
                                  init_states [ca_1; ca_3]))))
                             [ca_1; ca_3])
                 (records_of (code (hd blank (entries (consume_all
                                  init_states [ca_1; ca_3]))))
                             [ca_3; ca_1]))
    by (vm_compute; apply perm_swap).
  split; [exact HF | split; [exact HF' |]].
  exact (proj1 (proj2 (order_within_a_code_is_immaterial
                         [ca_1; ca_3] [ca_3; ca_1] _ _
                         HF HF' Hin Hin' eq_refl HP))).
Defined.

(** ** The newline at the end of a buffer *)

Lemma skip_delims_newline (s : string) :
  Libc.skip_delims delims (s ++ String Libc.LF EmptyString) =
  match Libc.skip_delims delims s with
  | EmptyString => EmptyString
  | s' => (s' ++ String Libc.LF EmptyString)%string
  end.
Proof.
  induction s as [| c s IH]; cbn [append Libc.skip_delims].
  - reflexivity.
  - destruct (Libc.is_delim delims c); [exact IH | reflexivity].
Qed.

Lemma span_token_newline (s t saved : string) :
  Libc.span_token delims s = (t, saved) ->
  exists saved',
    Libc.span_token delims (s ++ String Libc.LF EmptyString) = (t, saved') /\
    (saved' = (saved ++ String Libc.LF EmptyString)%string \/
     saved' = EmptyString /\ saved = EmptyString).
Proof.
  revert t saved. induction s as [| c s IH]; intros t saved H;
    cbn [append Libc.span_token] in *.
  - injection H as <- <-. exists EmptyString. split; [reflexivity | now right].
  - destruct (Libc.is_delim delims c).
    + injection H as <- <-. eexists. split; [reflexivity | now left].
    + destruct (Libc.span_token delims s) as [t0 saved0].
      injection H as <- <-.
      destruct (IH _ _ eq_refl) as (saved' & -> & Hs).
      exists saved'. split; [reflexivity | exact Hs].
Qed.

Lemma tokens_newline_bounded (n : nat) (s : string) :
  (String.length s <= n)%nat ->
  tokens (s ++ String Libc.LF EmptyString) = tokens s.
Proof.
  revert s. induction n as [| n IH]; intros s Hlen.
  - destruct s; [reflexivity | simpl in Hlen; lia].
  - rewrite (tokens_step (s ++ _)), (tokens_step s).
    unfold Libc.strtok. rewrite skip_delims_newline.
    pose proof (skip_delims_length delims s) as Hskip.
    destruct (Libc.skip_delims delims s) as [| c s'] eqn:E; [reflexivity |].
    cbn [append].
    destruct (Libc.span_token delims (String c s')) as [t saved] eqn:Es.
    pose proof (span_token_length _ _ _ _ Es) as Hsaved.
    destruct (span_token_newline _ _ _ Es) as (saved' & Es' & Hs).
    cbn [append] in Es'. rewrite Es'. f_equal.
    destruct Hs as [-> | [-> ->]]; [| reflexivity].
    apply IH. simpl in Hsaved, Hskip. lia.
Qed.

(** X17: a newline at the end of a line adds no token: the last line of a
    file is tokenized, and so decoded, the same whether or not a newline
    ends it. *)
Theorem final_newline_adds_no_token :
  forall (atof : string -> Q) (states : table) (line : string),
    tokens (line ++ String Libc.LF EmptyString) = tokens line /\
    tokenize (line ++ String Libc.LF EmptyString) = tokenize line /\
    analyze_line atof states (line ++ String Libc.LF EmptyString) =
    analyze_line atof states line.
Proof.
  intros atof states line.
  assert (Ht : tokens (line ++ String Libc.LF EmptyString) = tokens line)
    by (apply (tokens_newline_bounded (String.length line)); lia).
  assert (Hz : tokenize (line ++ String Libc.LF EmptyString) = tokenize line)
    by (now rewrite !tokenize_tokens, Ht).
  split; [exact Ht | split; [exact Hz |]].
  unfold analyze_line. now rewrite Hz.
Qed.

(** ** A line that fills the buffer *)

Lemma fgets_read_full (body after : string) :
  no_byte Libc.LF body = true ->
  Libc.fgets_read (String.length body) (body ++ after) = (body, after).
Proof.
  intros Hno. induction body as [| c body IH];
    cbn [String.length append Libc.fgets_read].
  - destruct after; reflexivity.
  - simpl in Hno. apply andb_true_iff in Hno. destruct Hno as [Hc Hno].
    apply negb_true_iff in Hc. rewrite Hc, (IH Hno). reflexivity.
Qed.

(** X18: a line of exactly 99 bytes before its newline fills the buffer,
    so that [fgets] delivers the newline alone as the next buffer; that
    buffer has no token, and the behaviour of the run is undefined,
    whatever the line holds. *)
Theorem line_of_99_bytes_is_undefined :
  forall (atof : string -> Q) (body rest : string) (states : table),
    String.length body = 99%nat ->
    no_byte Libc.LF body = true ->
    analyze_file atof (body ++ String Libc.LF rest) states = UB.
Proof.
  intros atof body rest states Hlen Hno. unfold analyze_file.
  rewrite analyze_file_loop_lines.
  fold (file_lines (body ++ String Libc.LF rest)).
  rewrite file_lines_step.
  assert (E : Libc.fgets line_sz (body ++ String Libc.LF rest) =
              Some (body, String Libc.LF rest)).
  { unfold Libc.fgets.
    destruct (body ++ String Libc.LF rest)%string eqn:Eb;
      [destruct body; discriminate |].
    rewrite <- Eb. f_equal.
    change (line_sz - 1)%nat with 99%nat. rewrite <- Hlen.
    now apply fgets_read_full. }
  rewrite E, file_lines_step.
  assert (E2 : Libc.fgets line_sz (String Libc.LF rest) =
               Some (String Libc.LF EmptyString, rest)) by reflexivity.
  rewrite E2. cbn [decode_lines].
  destruct (decode atof (tokenize (Libc.cstr body))); [| reflexivity].
  cbn [bind].
  assert (E3 : decode atof (tokenize (Libc.cstr (String Libc.LF EmptyString)))
               = UB) by (apply decode_indeterminate; reflexivity).
  now rewrite E3.
Qed.

Lemma line_of_99_bytes_witness :
  String.length line_99 = 99%nat /\
  no_byte Libc.LF line_99 = true /\
  (9 <= List.length (tokens line_99))%nat /\
  analyze_file Libc.atof_decimal
    (line_99 ++ String Libc.LF EmptyString)%string init_states = UB.
Proof.
  assert (Hlen : String.length line_99 = 99%nat) by (vm_compute; reflexivity).
  assert (Hno : no_byte Libc.LF line_99 = true) by (vm_compute; reflexivity).
  split; [exact Hlen | split; [exact Hno | split; [vm_compute; lia |]]].
  exact (line_of_99_bytes_is_undefined Libc.atof_decimal line_99 EmptyString
           init_states Hlen Hno).
Defined.

(** ** Fields beyond the ninth *)

Lemma tokens_fields_then (fields : list string) (after : string) :
  fields <> [] ->
  Forall well_delimited fields ->
  tokens (String.concat (String Libc.TAB EmptyString) fields
          ++ String Libc.TAB after) =
  fields ++ tokens after.
Proof.
  intros Hne HF. induction HF as [| f fields Hf _ IH]; [congruence |].
  destruct fields as [| g fields].
  - cbn [String.concat app]. now rewrite tokens_field.
  - change (String.concat (String Libc.TAB EmptyString) (f :: g :: fields))
      with (f ++ String Libc.TAB
              (String.concat (String Libc.TAB EmptyString) (g :: fields)))%string.
    rewrite append_assoc_string. cbn [append].
    rewrite tokens_field by (assumption || reflexivity).
    rewrite IH by discriminate. reflexivity.
Qed.

(** C10, as the claim has it, fails twice.  A line of ten fields of which
    the third is empty has nine tokens: it is accepted, but the tenth field
    is decoded as the temperature.  A line of ten fields, none empty, that
    is longer than the buffer is cut by [fgets]; its tail is a buffer of one
    token, and the run is undefined. *)
Lemma tenth_field_not_ignored :
  tokens line_empty_field =
    ["CA"; "1428300000000"; "93.0"; "0.0"; "100.0"; "0.0"; "95644.0";
     "277.58716"; "999.0"] /\
  decode Libc.atof_decimal (tokenize line_empty_field)
  = Ok empty_field_record /\
  (temp empty_field_record == kelvin_to_fahrenheit 999)%Q /\
  String.length line_over_99 = 118%nat /\
  List.length (tokens line_over_99) = 10%nat /\
  map String.length (file_lines line_over_99) = [99; 19]%nat /\
  analyze_file Libc.atof_decimal line_over_99 init_states = UB.
Proof. repeat split; vm_compute; reflexivity. Qed.

(** C10, as the code has it: on a line that fits the buffer, newline
    included, and begins with nine non-empty fields followed by a tab and
    anything else, the tokenizer stores those nine fields and stops.  The
    line is accepted, the record is decoded from the nine fields alone, and
    the table and the rest of the file are treated as if the line had ended
    after the ninth field. *)
Theorem fields_beyond_ninth_ignored :
  forall (atof : string -> Q) (fields : list string) (extra rest : string)
         (states : table),
    List.length fields = 9%nat ->
    Forall well_delimited fields ->
    let body :=
      (String.concat (String Libc.TAB EmptyString) fields
       ++ String Libc.TAB extra)%string in
    let line := (body ++ String Libc.LF EmptyString)%string in
    no_byte Libc.LF body = true ->
    no_byte Libc.NUL body = true ->
    (String.length body < 99)%nat ->
    tokenize line = map Some fields /\
    exists state,
      decode atof (map Some fields) = Ok state /\
      analyze_line atof states line = Ok (consume states state) /\
      analyze_line atof states (tsv fields) = Ok (consume states state) /\
      analyze_file atof (body ++ String Libc.LF rest) states =
      analyze_file atof rest (consume states state).
Proof.
  intros atof fields extra rest states Hnine HF body line Hlf Hnul Hlen.
  assert (Hne : fields <> []) by (destruct fields; [discriminate | congruence]).
  assert (Htok : tokens line =
                 fields ++ tokens (extra ++ String Libc.LF EmptyString)).
  { unfold line, body. rewrite append_assoc_string. cbn [append].
    now apply tokens_fields_then. }
  assert (Hfirst : firstn 9 (tokens line) = fields).
  { rewrite Htok, firstn_app, Hnine, Nat.sub_diag, firstn_all2 by lia.
    simpl. apply app_nil_r. }
  assert (Hline : tokenize line = map Some fields).
  { rewrite tokenize_full, Hfirst; [reflexivity |].
    rewrite Htok, length_app. lia. }
  assert (Htsv : tokenize (tsv fields) = map Some fields).
  { rewrite tokenize_full, (tokens_tsv fields HF), firstn_all2 by
      (rewrite ?(tokens_tsv fields HF); lia). reflexivity. }
  destruct (decode_nine atof fields) as [state Hs]; [lia |].
  rewrite firstn_all2 in Hs by lia.
  split; [exact Hline |].
  exists state. split; [exact Hs | split; [| split]].
  - unfold analyze_line. now rewrite Hline, Hs.
  - unfold analyze_line. now rewrite Htsv, Hs.
  - unfold analyze_file. rewrite !analyze_file_loop_lines.
    fold (file_lines (body ++ String Libc.LF rest)). fold (file_lines rest).
    rewrite (file_lines_line body rest Hlf Hnul Hlen).
    cbn [decode_lines]. fold line. rewrite Hline, Hs. cbn [bind].
    destruct (decode_lines atof (file_lines rest)); reflexivity.
Qed.

Lemma fields_beyond_ninth_witness :
  List.length nine_fields = 9%nat /\
  Forall well_delimited nine_fields /\
  tokenize ((String.concat (String Libc.TAB EmptyString) nine_fields
             ++ String Libc.TAB beyond_ninth)
            ++ String Libc.LF EmptyString)
  = map Some nine_fields.
Proof.
  assert (Hnine : List.length nine_fields = 9%nat) by reflexivity.
  assert (HF : Forall well_delimited nine_fields)
    by (repeat constructor; discriminate).
  assert (Hlf : no_byte Libc.LF
                  (String.concat (String Libc.TAB EmptyString) nine_fields
                   ++ String Libc.TAB beyond_ninth) = true)
    by (vm_compute; reflexivity).
  assert (Hnul : no_byte Libc.NUL
                   (String.concat (String Libc.TAB EmptyString) nine_fields
                    ++ String Libc.TAB beyond_ninth) = true)
    by (vm_compute; reflexivity).
  assert (Hlen : (String.length
                    (String.concat (String Libc.TAB EmptyString) nine_fields
                     ++ String Libc.TAB beyond_ninth) < 99)%nat)
    by (vm_compute; lia).
  split; [exact Hnine | split; [exact HF |]].
  exact (proj1 (fields_beyond_ninth_ignored Libc.atof_decimal nine_fields
                  beyond_ninth EmptyString init_states
                  Hnine HF Hlf Hnul Hlen)).
Defined.
